(** * MOM (Memory Overcommitment Manager): the monitor-collect-reconcile core

    A shallow embedding of
      - [mom/Collectors/Collector.py]  (collector contract, [get_collectors]),
      - [mom/Monitor.py]               ([Monitor.collect] and its helpers),
      - [mom/Controllers/KSM.py]       ([KSM.process], [KSM.write_value]),
    followed by the properties of the collection cycle, of the bounded
    history, of the collector resolver and of the KSM controller.

    Python dictionaries are finite maps ([gmap]), Python sets are [gset]s,
    the [deque] of statistics is a list (oldest sample first).  Exceptions
    are explicit result constructors.  Logging and plotting in [Monitor] do
    not touch the monitor's state and are left out; the controller's log
    records and its hypervisor calls are kept as an event trace. *)

From Stdlib Require Import Ascii.
From stdpp Require Import gmap strings list fin_maps pretty.

#[local] Set Warnings "-clear-no-such-hyp".

(** ** Python values *)

(** The values that flow through samples, control directives and host
    attributes: [None], booleans, integers and text. *)
Inductive pyval : Type :=
  | PNone
  | PBool (b : bool)
  | PInt (z : Z)
  | PStr (s : string).

#[global] Instance pyval_eq_dec : EqDecision pyval.
Proof. solve_decision. Defined.

(** [v is None] *)
Definition is_None (v : pyval) : bool :=
  match v with PNone => true | _ => false end.

(** ** Collectors/Collector.py *)

Module Collector.

(** What one call of a collector's [collect()] does, seen from the monitor:
    it returns a dictionary (or [None]), or raises [CollectionError],
    [FatalError], or some other [Exception].  ([open_datafile] ends the
    whole process with [sys.exit] when a file cannot be opened; then no
    monitor is left to speak of, and that is not an outcome here.) *)
Inductive outcome : Type :=
  | Returned (collected : option (gmap string pyval))
  | CollectionError (msg : string)
  | FatalError (msg : string)
  | OtherException.

Section contract.
(** [env] stands for whatever a collector reads when it is invoked in a
    given cycle (proc files, the hypervisor connection, its own cache). *)
Context {env : Type}.

Record Collector : Type := {
  collect : env -> outcome;
  getFields : gset string;
  getOptionalFields : gset string
}.

(** The class [Collector] itself, which a plugin overrides: [collect()]
    returns [{}] and both field sets are empty (lines 35-65). *)
Definition base : Collector :=
  {| collect := fun _ => Returned (Some ∅);
     getFields := ∅; getOptionalFields := ∅ |}.
End contract.
Arguments Collector : clear implicits.
Arguments base : clear implicits.

(** *** [get_collectors] *)

(** [str.split(sep)] for a one-character separator. *)
Fixpoint split (sep : ascii) (s : string) : list string :=
  match s with
  | EmptyString => [EmptyString]
  | String c s' =>
      if decide (c = sep) then EmptyString :: split sep s'
      else match split sep s' with
           | h :: t => String c h :: t
           | [] => [String c EmptyString]
           end
  end.

(** The characters [str.lstrip()] removes.  A character of a [string]
    stands for the code point of its number, so the texts here are those
    of code points below 256; among these the white space is TAB, LF, VT,
    FF, CR, FS, GS, RS, US, the space, NEL (133) and the no-break space
    (160). *)
Definition is_whitespace (c : ascii) : bool :=
  let n := nat_of_ascii c in
  ((9 <=? n) && (n <=? 13)) || ((28 <=? n) && (n <=? 32))
  || (n =? 133) || (n =? 160).

Fixpoint lstrip (s : string) : string :=
  match s with
  | EmptyString => EmptyString
  | String c s' => if is_whitespace c then lstrip s' else s
  end.

(** A name as the loop of [get_collectors] uses it: stripped on the left
    and not empty. *)
Definition stripped (name : string) : Prop :=
  lstrip name = name /\ name <> EmptyString.

(** A name that survives the splitting at commas: stripped, not empty
    and without a comma. *)
Definition plain (name : string) : Prop :=
  stripped name /\ ~ In ","%char (String.list_ascii_of_string name).

(** A value of the monitor's [properties] dictionary: a plain value, or
    the dictionary stored under ['config']. *)
Inductive propval : Type :=
  | PropVal (v : pyval)
  | PropConfig (d : gmap string string).

(** The part of the global [ConfigParser] that [get_collectors] uses. *)
Record GlobalConfig : Type := {
  has_section : string -> bool;
  items : string -> list (string * string)   (* [items(section, raw=True)] *)
}.

(** [dict(pairs)]: a later pair replaces an earlier one with the same key. *)
Definition dict (pairs : list (string * string)) : gmap string string :=
  foldl (fun d kv => <[kv.1:=kv.2]> d) ∅ pairs.

Section resolver.
Context {env : Type}.

(** What the body of the [try] (lines 92-93) does for a collector name:
    the import and the call of the constructor yield an instance, or
    raise [ImportError], [FatalError] or something else. *)
Inductive created : Type :=
  | Instance (c : Collector env)
  | RaisedImportError
  | RaisedFatalError (msg : string)
  | RaisedOther.

(** [get_collectors] returns a list or [None], or lets an exception
    through. *)
Inductive result : Type :=
  | Return (r : option (list (Collector env)))
  | Raise.

(** The plugins that can be imported, as the interpreter sees them. *)
Variable create : string -> gmap string propval -> created.
Variable global_config : GlobalConfig.

(** Lines 86-88: the collector's own section of the global
    configuration goes into [properties['config']]. *)
Definition with_section (name : string) (properties : gmap string propval)
    : gmap string propval :=
  let section := String.append "Collector: " name in
  if has_section global_config section
  then <["config" := PropConfig (dict (items global_config section))]>
         properties
  else properties.

(** The loop of lines 80-100.  [properties] is the caller's dictionary,
    which the loop updates in place; it is returned with the result. *)
Fixpoint resolve (names : list string) (properties : gmap string propval)
    (collectors : list (Collector env))
    : gmap string propval * result :=
  match names with
  | [] => (properties, Return (Some collectors))
  | name :: names' =>
      let name := lstrip name in
      if decide (name = EmptyString) then
        resolve names' properties collectors
      else
        let properties := with_section name properties in
        match create name properties with
        | Instance c => resolve names' properties (collectors ++ [c])
        | RaisedImportError => (properties, Return None)
        | RaisedFatalError _ => (properties, Return None)
        | RaisedOther => (properties, Raise)
        end
  end.

Definition get_collectors (config_str : string)
    (properties : gmap string propval) : gmap string propval * result :=
  if decide (is_Some (properties !! "config")) then
    (properties, Return None)
  else resolve (split ","%char config_str) properties [].

(** The names the loop really tries, in order. *)
Definition names_of (config_str : string) : list string :=
  filter (fun n => n ≠ EmptyString) (lstrip <$> split ","%char config_str).

(** The [properties] a collector is constructed with when the names
    [before] it have been tried. *)
Definition properties_for (before : list string) (name : string)
    (properties : gmap string propval) : gmap string propval :=
  with_section name (foldl (fun p n => with_section n p) properties before).

(** The construction of a collector fails with one of the two errors
    that [get_collectors] catches. *)
Definition fails (r : created) : Prop :=
  r = RaisedImportError \/ exists msg, r = RaisedFatalError msg.
End resolver.
Arguments created : clear implicits.
Arguments result : clear implicits.

End Collector.

(** ** Monitor.py *)

Module Monitor.
Import Collector.

(** The two configuration values the monitor reads with [config.getint]. *)
Record Config : Type := {
  sample_history_length : Z;   (* ('main', 'sample-history-length') *)
  running : Z                  (* ('__int__', 'running') *)
}.

(** The levels at which the monitor logs, and what it logs: the text of
    a record is kept as the format it comes from with its arguments. *)
Inductive level : Type := DEBUG | INFO | WARNING | ERROR.

Inductive message : Type :=
  | Using_fields (fs : gset string)
  | Using_optional_fields (os : gset string)
  | No_data (position : nat)
  | Collection_error (msg : string)
  | Fatal_collector_error (msg : string)
  | Unexpected_collection_error
  | Incomplete_data (missing : gset string)
  | Is_ready.

(** What [interrogate] puts into the [Entity] it returns: the properties,
    the variables and the statistics of the monitor.  (The class [Entity]
    is the policy's view of them and is not described here.) *)
Record Snapshot : Type := {
  snap_properties : gmap string propval;
  snap_variables : gmap string pyval;
  snap_statistics : list (gmap string pyval)
}.

Section monitor.
Context {env : Type}.

Record Monitor : Type := {
  config : Config;
  properties : gmap string propval;
  statistics : list (gmap string pyval);
  variables : gmap string pyval;
  fields : option (gset string);
  optional_fields : option (gset string);
  collectors : list (Collector env);
  ready : option bool;
  _terminate : bool
}.

(** [Monitor.__init__]; the subclasses then fill in [collectors],
    [properties] and [config]. *)
Definition init (cfg : Config) (props : gmap string propval)
    (cs : list (Collector env)) : Monitor :=
  {| config := cfg; properties := props; statistics := [];
     variables := ∅; fields := None; optional_fields := None;
     collectors := cs; ready := None; _terminate := false |}.

Definition set_fields (fs os : gset string) (m : Monitor) : Monitor :=
  {| config := config m; properties := properties m;
     statistics := statistics m; variables := variables m;
     fields := Some fs; optional_fields := Some os;
     collectors := collectors m; ready := ready m;
     _terminate := _terminate m |}.

Definition set_statistics (st : list (gmap string pyval)) (m : Monitor)
    : Monitor :=
  {| config := config m; properties := properties m;
     statistics := st; variables := variables m;
     fields := fields m; optional_fields := optional_fields m;
     collectors := collectors m; ready := ready m;
     _terminate := _terminate m |}.

Definition _set_ready (m : Monitor) : Monitor :=
  {| config := config m; properties := properties m;
     statistics := statistics m; variables := variables m;
     fields := fields m; optional_fields := optional_fields m;
     collectors := collectors m; ready := Some true;
     _terminate := _terminate m |}.

Definition _set_not_ready (m : Monitor) : Monitor :=
  {| config := config m; properties := properties m;
     statistics := statistics m; variables := variables m;
     fields := fields m; optional_fields := optional_fields m;
     collectors := collectors m; ready := Some false;
     _terminate := _terminate m |}.

Definition terminate (m : Monitor) : Monitor :=
  {| config := config m; properties := properties m;
     statistics := statistics m; variables := variables m;
     fields := fields m; optional_fields := optional_fields m;
     collectors := collectors m; ready := ready m;
     _terminate := true |}.

(** [bool(self.ready)] *)
Definition isReady (m : Monitor) : bool :=
  match ready m with Some true => true | _ => false end.

Definition should_run (m : Monitor) : bool :=
  (running (config m) =? 1)%Z && negb (_terminate m).

(** [for (var, val) in variables.items(): self.variables[var] = val] *)
Definition update_variables (vars : gmap string pyval) (m : Monitor)
    : Monitor :=
  {| config := config m; properties := properties m;
     statistics := statistics m;
     variables := map_fold (fun var val acc => <[var:=val]> acc)
                           (variables m) vars;
     fields := fields m; optional_fields := optional_fields m;
     collectors := collectors m; ready := ready m;
     _terminate := _terminate m |}.

(** One step of the inner loop of [collect] (lines 99-101):
    [if key not in data or data[key] is None: data[key] = val]. *)
Definition store (key : string) (val : pyval) (data : gmap string pyval)
    : gmap string pyval :=
  match data !! key with
  | None => <[key:=val]> data
  | Some old => if is_None old then <[key:=val]> data else data
  end.

(** [for (key, val) in collected.items(): ...] *)
Definition merge (data collected : gmap string pyval)
    : gmap string pyval :=
  map_fold store data collected.

(** The result of the loop over the collectors: the accumulated [data],
    or the message of the [FatalError] that cut the loop short. *)
Inductive gathered : Type :=
  | Data (data : gmap string pyval)
  | Fatal (msg : string).

(** [for c in self.collectors: try: ... except ...] (lines 92-109). *)
Fixpoint gather (e : env) (cs : list (Collector env))
    (data : gmap string pyval) : gathered :=
  match cs with
  | [] => Data data
  | c :: cs' =>
      match collect c e with
      | Returned None => gather e cs' data
      | Returned (Some collected) => gather e cs' (merge data collected)
      | CollectionError _ => gather e cs' data
      | FatalError msg => Fatal msg
      | OtherException => gather e cs' data
      end
  end.

(** [for k in self.optional_fields: data.setdefault(k, None)] *)
Definition setdefault (k : string) (d : pyval) (data : gmap string pyval)
    : gmap string pyval :=
  match data !! k with
  | None => <[k:=d]> data
  | Some _ => data
  end.

Definition fill_optional (os : gset string) (data : gmap string pyval)
    : gmap string pyval :=
  set_fold (fun k acc => setdefault k PNone acc) data os.

(** [self.statistics.append(data)] followed by one [popleft()] when the
    length exceeds the configured history length (lines 121-123). *)
Definition push (n : Z) (st : list (gmap string pyval))
    (data : gmap string pyval) : list (gmap string pyval) :=
  let st' := st ++ [data] in
  if (Z.of_nat (length st') >? n)%Z then tail st' else st'.

(** The newest [n] entries of a history, oldest first. *)
Definition newest (n : nat) (st : list (gmap string pyval))
    : list (gmap string pyval) :=
  drop (length st - n) st.

(** The unions computed on the first call (lines 70-81). *)
Definition all_fields (cs : list (Collector env)) : gset string :=
  foldl (fun acc c => acc ∪ getFields c) ∅ cs.

Definition all_optional_fields (cs : list (Collector env)) : gset string :=
  foldl (fun acc c => acc ∪ getOptionalFields c) ∅ cs.

(** [self.fields] once line 74 is passed: computed on the first call,
    kept afterwards. *)
Definition mandatory (m : Monitor) : gset string :=
  match fields m with
  | None => all_fields (collectors m)
  | Some fs => fs
  end.

(** [self.optional_fields] once line 81 is passed. *)
Definition optional (m : Monitor) : gset string :=
  match optional_fields m with
  | None => all_optional_fields (collectors m)
  | Some os => os
  end.

(** [Monitor.collect]: the new monitor state and the returned value
    ([None] for Python's [None], otherwise the sample). *)
Definition collect (e : env) (m : Monitor)
    : Monitor * option (gmap string pyval) :=
  let fs := mandatory m in
  let os := optional m ∖ fs in
  let m := set_fields fs os m in
  match gather e (collectors m) ∅ with
  | Fatal _ => (terminate (_set_not_ready m), None)
  | Data data =>
      if decide (fs ⊆ dom data) then
        let data := fill_optional os data in
        let m := set_statistics
                   (push (sample_history_length (config m))
                         (statistics m) data) m in
        (_set_ready m, Some data)
      else (_set_not_ready m, None)
  end.

(** A run of collection cycles, one environment per cycle. *)
Definition cycles (es : list env) (m : Monitor) : Monitor :=
  foldl (fun m e => (collect e m).1) m es.

(** The samples that the cycles of a run return, in order. *)
Fixpoint produced (es : list env) (m : Monitor)
    : list (gmap string pyval) :=
  match es with
  | [] => []
  | e :: es' =>
      match collect e m with
      | (m', Some sample) => sample :: produced es' m'
      | (m', None) => produced es' m'
      end
  end.

(** The property [valid_fields] (lines 52-54); [None] when it raises
    because a field set is still [None]. *)
Definition valid_fields (m : Monitor) : option (gset string) :=
  match fields m, optional_fields m with
  | Some fs, Some os => Some (fs ∪ os)
  | _, _ => None
  end.

(** [Monitor.interrogate] (lines 132-149): [None] unless [ready] is
    [True]. *)
Definition interrogate (m : Monitor) : option Snapshot :=
  match ready m with
  | Some true =>
      Some {| snap_properties := properties m;
              snap_variables := variables m;
              snap_statistics := statistics m |}
  | _ => None
  end.

(** The dictionaries that the collectors return in a cycle, in declared
    order. *)
Definition fragments (e : env) (cs : list (Collector env))
    : list (gmap string pyval) :=
  omap (fun c => match Collector.collect c e with
                 | Returned (Some collected) => Some collected
                 | _ => None
                 end) cs.

(** The value that a list of dictionaries gives for [k] when the first
    value that is not [None] counts: [None] (the option) when no
    dictionary has the key. *)
Fixpoint first_value (k : string) (ds : list (gmap string pyval))
    : option pyval :=
  match ds with
  | [] => None
  | d :: ds' =>
      match d !! k with
      | Some v =>
          if is_None v then Some (default v (first_value k ds'))
          else Some v
      | None => first_value k ds'
      end
  end.

(** [Monitor._disp_collection_error] (lines 176-181): nothing without a
    message, a debug record when [ready] is [False], a warning when it is
    [True] or [None]. *)
Definition _disp_collection_error (m : Monitor) (msg : option message)
    : list (level * message) :=
  match msg with
  | None => []
  | Some msg =>
      match ready m with
      | Some false => [(DEBUG, msg)]
      | _ => [(WARNING, msg)]
      end
  end.

(** What [Monitor._set_not_ready] logs (lines 183-185): it sets [ready]
    to [False] first and then calls [_disp_collection_error]. *)
Definition _set_not_ready_log (m : Monitor) (msg : option message)
    : list (level * message) :=
  _disp_collection_error (_set_not_ready m) msg.

(** What [Monitor._set_ready] logs (lines 171-174). *)
Definition _set_ready_log (m : Monitor) : list (level * message) :=
  match ready m with
  | Some true => []
  | _ => [(INFO, Is_ready)]
  end.

(** What the loop over the collectors logs (lines 92-109); [position]
    counts the collectors, and [logger.exception] logs at level ERROR. *)
Fixpoint gather_log (e : env) (m : Monitor) (position : nat)
    (cs : list (Collector env)) : list (level * message) :=
  match cs with
  | [] => []
  | c :: cs' =>
      match Collector.collect c e with
      | Returned None =>
          (DEBUG, No_data position) :: gather_log e m (S position) cs'
      | Returned (Some _) => gather_log e m (S position) cs'
      | CollectionError msg =>
          _disp_collection_error m (Some (Collection_error msg))
            ++ gather_log e m (S position) cs'
      | FatalError msg =>
          _set_not_ready_log m (Some (Fatal_collector_error msg))
      | OtherException =>
          (ERROR, Unexpected_collection_error)
            :: gather_log e m (S position) cs'
      end
  end.

(** What one call of [Monitor.collect] logs, in order; it is kept apart
    from [collect], which gives the new state and the returned value. *)
Definition collect_log (e : env) (m : Monitor) : list (level * message) :=
  (match fields m with
   | None => [(DEBUG, Using_fields (all_fields (collectors m)))]
   | Some _ => []
   end)
  ++ (match optional_fields m with
      | None =>
          [(DEBUG,
            Using_optional_fields (all_optional_fields (collectors m)))]
      | Some _ => []
      end)
  ++ gather_log e m 0 (collectors m)
  ++ match gather e (collectors m) ∅ with
     | Fatal _ => []
     | Data data =>
         if decide (mandatory m ⊆ dom data) then _set_ready_log m
         else _set_not_ready_log m
                (Some (Incomplete_data (mandatory m ∖ dom data)))
     end.

(** A call of [collect()] that leaves nothing in the accumulator. *)
Definition silent (o : outcome) : Prop :=
  o = Returned None \/ o = Returned (Some ∅) \/
  (exists msg, o = CollectionError msg) \/ o = OtherException.

(** A call of [collect()] that does not raise a fatal error. *)
Definition not_fatal (o : outcome) : Prop :=
  forall msg, o <> FatalError msg.

End monitor.
Arguments Monitor : clear implicits.

End Monitor.

(** ** Controllers/KSM.py *)

Module KSM.

Inductive exn : Type :=
  | TypeError
  | ValueError
  | IOError (strerror : string)
  | OtherError.

(** The host entity as the controller sees it: the control directives
    behind [GetControl] ([PNone] for an absent one) and its attributes. *)
Record Host : Type := {
  GetControl : string -> pyval;
  attrs : gmap string pyval
}.

(** [getattr(host, name, default)] *)
Definition getattr (host : Host) (name : string) (d : pyval) : pyval :=
  default d (attrs host !! name).

(** [a != b] for an integer [a]; a boolean counts as 0 or 1. *)
Definition int_ne (a : Z) (b : pyval) : bool :=
  match b with
  | PInt z => negb (a =? z)%Z
  | PBool t => negb (a =? (if t then 1 else 0))%Z
  | PNone | PStr _ => true
  end.

(** What the controller does that can be seen from outside: its log
    records and its calls of the hypervisor interface. *)
Inductive event : Type :=
  | Debug_changed (name : string) (before_var : pyval) (rule_var : Z)
  | Info_updating (outputs : list (string * Z))
  | Call_ksmTune (outputs : list (string * Z))
  | Warning_failed (fname strerror : string).

(** The debug record of line 54 for a knob that goes into the batch. *)
Definition debug_record (host : Host) (kv : string * Z) : event :=
  Debug_changed (String.append "ksm_" kv.1)
                (getattr host (String.append "ksm_" kv.1) PNone) kv.2.

(** [self.keys] *)
Definition keys : list string :=
  ["run"; "pages_to_scan"; "sleep_millisecs"; "merge_across_nodes"].

(** [outputs[key] = value] on a dictionary kept in insertion order. *)
Fixpoint setitem (key : string) (value : Z) (outputs : list (string * Z))
    : list (string * Z) :=
  match outputs with
  | [] => [(key, value)]
  | (k, v) :: outputs' =>
      if decide (k = key) then (k, value) :: outputs'
      else (k, v) :: setitem key value outputs'
  end.

(** The hypervisor calls in a trace. *)
Definition calls (tr : list event) : list (list (string * Z)) :=
  omap (fun ev => match ev with Call_ksmTune o => Some o | _ => None end) tr.

Section controller.
(** [int(s)] for a text [s] is the interpreter's; [None] when it raises
    [ValueError]. *)
Variable int_of_str : string -> option Z.

(** [int(v)] for the values of [pyval].  Directives that are floats or
    other objects are not among them, so nothing here says which exception
    [int()] raises for those. *)
Definition int (v : pyval) : Z + exn :=
  match v with
  | PNone => inr TypeError
  | PBool b => inl (if b then 1 else 0)%Z
  | PInt z => inl z
  | PStr s => match int_of_str s with
              | Some z => inl z
              | None => inr ValueError
              end
  end.

(** The hypervisor interface handed over in [properties]: its state and
    its [ksmTune], which may raise. *)
Context {HV : Type}.
Variable ksmTune : list (string * Z) -> HV -> HV * option exn.

(** The loop of lines 45-55, with the trace so far. *)
Fixpoint scan (host : Host) (ks : list string)
    (outputs : list (string * Z)) (tr : list event)
    : list event * (list (string * Z) + exn) :=
  match ks with
  | [] => (tr, inl outputs)
  | key :: ks' =>
      let rule_var := GetControl host (String.append "ksm_" key) in
      if is_None rule_var then scan host ks' outputs tr
      else
        match int rule_var with
        | inr e => (tr, inr e)
        | inl rule_var =>
            let before_var :=
              getattr host (String.append "ksm_" key) PNone in
            if int_ne rule_var before_var then
              scan host ks' (setitem key rule_var outputs)
                   (tr ++ [Debug_changed (String.append "ksm_" key)
                                         before_var rule_var])
            else scan host ks' outputs tr
        end
  end.

(** [KSM.process]: the hypervisor's new state, the trace, and the
    exception that leaves the method, if any. *)
Definition process (host : Host) (guests : list Host) (hv : HV)
    : HV * list event * option exn :=
  match scan host keys [] [] with
  | (tr, inr e) => (hv, tr, Some e)
  | (tr, inl outputs) =>
      if (0 <? length outputs)%nat then
        let tr := tr ++ [Info_updating outputs; Call_ksmTune outputs] in
        let '(hv, r) := ksmTune outputs hv in
        (hv, tr, r)
      else (hv, tr, None)
  end.

(** What one knob contributes to [outputs]: its coerced desired value
    when that is present and differs from the last applied one. *)
Definition changed (host : Host) (key : string) : option (string * Z) :=
  let rule_var := GetControl host (String.append "ksm_" key) in
  if is_None rule_var then None
  else match int rule_var with
       | inl z =>
           if int_ne z (getattr host (String.append "ksm_" key) PNone)
           then Some (key, z) else None
       | inr _ => None
       end.

(** Knob [key] has a desired value present whose coerced form [z]
    compares unequal to the value last applied on the host. *)
Definition differs (host : Host) (key : string) (z : Z) : Prop :=
  key ∈ keys /\
  is_None (GetControl host (String.append "ksm_" key)) = false /\
  int (GetControl host (String.append "ksm_" key)) = inl z /\
  int_ne z (getattr host (String.append "ksm_" key) PNone) = true.

(** Every desired value that is present equals, once coerced, the value
    last applied on the host. *)
Definition unchanged (host : Host) : Prop :=
  forall key, key ∈ keys ->
    is_None (GetControl host (String.append "ksm_" key)) = false ->
    exists z,
      int (GetControl host (String.append "ksm_" key)) = inl z /\
      int_ne z (getattr host (String.append "ksm_" key) PNone) = false.

(** Every present desired value can be coerced. *)
Definition coercible (host : Host) : Prop :=
  Forall (fun key =>
            let rule_var := GetControl host (String.append "ksm_" key) in
            is_None rule_var = false -> exists z, int rule_var = inl z)
         keys.
End controller.

Section files.
(** The file system below [open(fname, 'w')] and [f.write(text)]: the
    new state, and the [strerror] of the [IOError] when one is raised. *)
Context {FS : Type}.
Variable os_write : string -> string -> FS -> FS * option string.

(** [KSM.write_value] (lines 36-41), on the files and the log. *)
Definition write_value (fname : string) (value : Z)
    (w : FS * list event) : FS * list event :=
  match os_write fname (pretty value) w.1 with
  | (fs, None) => (fs, w.2)
  | (fs, Some strerror) => (fs, w.2 ++ [Warning_failed fname strerror])
  end.

(** Where the hypervisor interface keeps the file of a knob. *)
Variable knob_path : string -> string.

(** Modelled from the spec: the hypervisor interface's [ksmTune], which
    is not part of the sources at hand.  It is the single batched apply
    operation taking the map of knobs to values; a write failure of one
    knob is caught and logged and the remaining knobs are still written.
    Each knob is written with [write_value] above. *)
Definition ksmTune_files (outputs : list (string * Z))
    (w : FS * list event) : (FS * list event) * option exn :=
  (foldl (fun w kv => write_value (knob_path kv.1) kv.2 w) w outputs,
   None).

(** The writes a batch asks for, in order. *)
Definition writes_of (outputs : list (string * Z))
    : list (string * string) :=
  (fun kv => (knob_path kv.1, pretty kv.2)) <$> outputs.

(** The file system after a sequence of write attempts, failed or not. *)
Definition attempt_all (ws : list (string * string)) (fs : FS) : FS :=
  foldl (fun fs w => (os_write w.1 w.2 fs).1) fs ws.

(** The log records of the attempts that fail, in order. *)
Fixpoint warnings (ws : list (string * string)) (fs : FS) : list event :=
  match ws with
  | [] => []
  | w :: ws' =>
      match os_write w.1 w.2 fs with
      | (fs', None) => warnings ws' fs'
      | (fs', Some strerror) =>
          Warning_failed w.1 strerror :: warnings ws' fs'
      end
  end.
End files.

End KSM.

(** ** Concrete collectors, monitors and hosts *)

Module Examples.
Import Collector.

(** A collector that returns the same fragment in every cycle. *)
Definition constant (collected : gmap string pyval)
    (mandatory optional : gset string) : Collector unit :=
  {| Collector.collect := fun _ => Returned (Some collected);
     getFields := mandatory; getOptionalFields := optional |}.

Definition A : Collector unit := constant {["x" := PInt 5]} {["x"]} {["y"]}.
Definition B : Collector unit := constant {["x" := PInt 9]} ∅ {["x"]}.
Definition A_null : Collector unit := constant {["x" := PNone]} {["x"]} {["y"]}.

(** A collector whose resource vanished. *)
Definition broken : Collector unit :=
  {| Collector.collect := fun _ => FatalError "gone";
     getFields := {["z"]}; getOptionalFields := ∅ |}.

(** A collector that delivers [x] only when the environment says so. *)
Definition flaky : Collector bool :=
  {| Collector.collect := fun up : bool =>
       if up then Returned (Some {["x" := PInt 1]})
       else CollectionError "no data";
     getFields := {["x"]}; getOptionalFields := ∅ |}.

Definition cfg : Monitor.Config :=
  {| Monitor.sample_history_length := 2; Monitor.running := 1 |}.

(** A collector that has no data in any cycle. *)
Definition quiet : Collector unit :=
  {| Collector.collect := fun _ => CollectionError "no data";
     getFields := ∅; getOptionalFields := {["y"]} |}.

(** A collector that returns a key it does not declare. *)
Definition chatty : Collector unit :=
  constant {["x" := PInt 5; "extra" := PInt 7]} {["x"]} ∅.

(** A monitor whose history holds three samples although the configured
    length is two. *)
Definition overfull : Monitor.Monitor unit :=
  Monitor.set_statistics [∅; ∅; ∅] (Monitor.init cfg ∅ [A; B]).

(** Two plugins can be imported: [A], and [Broken] whose constructor raises
    a fatal error; every other name is unknown. *)
Definition plugins (name : string) (properties : gmap string propval)
    : created unit :=
  if decide (name = "A") then Instance A
  else if decide (name = "Broken") then RaisedFatalError "no such device"
  else RaisedImportError.

Definition no_sections : GlobalConfig :=
  {| has_section := fun _ => false; items := fun _ => [] |}.

(** A global configuration with a section for collector [A] only. *)
Definition section_for_A : GlobalConfig :=
  {| has_section := fun sec => bool_decide (sec = "Collector: A");
     items := fun sec =>
       if decide (sec = "Collector: A") then [("interval", "5")] else [] |}.

(** A host with a desired value for each of the four knobs; only
    [pages_to_scan] differs from what was applied last. *)
Definition host1 : KSM.Host :=
  {| KSM.GetControl := fun name =>
       if decide (name = "ksm_run") then PInt 1
       else if decide (name = "ksm_pages_to_scan") then PInt 100
       else if decide (name = "ksm_sleep_millisecs") then PInt 20
       else if decide (name = "ksm_merge_across_nodes") then PInt 1
       else PNone;
     KSM.attrs := {[ "ksm_run" := PInt 1; "ksm_pages_to_scan" := PInt 64;
                     "ksm_sleep_millisecs" := PInt 20;
                     "ksm_merge_across_nodes" := PInt 1 ]} |}.

(** A host seen for the first time: [ksm_run] is wanted and the host
    object has no attribute yet. *)
Definition host0 : KSM.Host :=
  {| KSM.GetControl := fun name =>
       if decide (name = "ksm_run") then PInt 1 else PNone;
     KSM.attrs := ∅ |}.

(** A hypervisor interface that accepts every batch. *)
Definition accept (outputs : list (string * Z)) (hv : unit)
    : unit * option KSM.exn := (hv, None).

Definition no_text (s : string) : option Z := None.

(** [host1] once the monitoring side has seen the batch applied. *)
Definition host1_applied : KSM.Host :=
  {| KSM.GetControl := KSM.GetControl host1;
     KSM.attrs := <["ksm_pages_to_scan" := PInt 100]> (KSM.attrs host1) |}.

(** [host1] with a control and an attribute that are not KSM's. *)
Definition host1_more : KSM.Host :=
  {| KSM.GetControl := fun name =>
       if decide (name = "balloon_target") then PInt 4096
       else KSM.GetControl host1 name;
     KSM.attrs := <["mem_free" := PInt 123]> (KSM.attrs host1) |}.

(** A host with a directive that is no number. *)
Definition host_bad : KSM.Host :=
  {| KSM.GetControl := fun name =>
       if decide (name = "ksm_run") then PInt 1
       else if decide (name = "ksm_pages_to_scan") then PStr "many"
       else PNone;
     KSM.attrs := {[ "ksm_run" := PInt 0 ]} |}.

(** A host seen for the first time, with a directive that is no number:
    [ksm_run] is wanted and the host object has no attribute. *)
Definition host_bad0 : KSM.Host :=
  {| KSM.GetControl := fun name =>
       if decide (name = "ksm_run") then PInt 1
       else if decide (name = "ksm_pages_to_scan") then PStr "many"
       else PNone;
     KSM.attrs := ∅ |}.

(** A hypervisor interface that raises on every batch and counts them. *)
Definition refuse (outputs : list (string * Z)) (hv : nat)
    : nat * option KSM.exn := (S hv, Some KSM.OtherError).

(** A host on which two knobs are to be changed. *)
Definition host2 : KSM.Host :=
  {| KSM.GetControl := fun name =>
       if decide (name = "ksm_run") then PInt 1
       else if decide (name = "ksm_pages_to_scan") then PInt 100
       else PNone;
     KSM.attrs := {[ "ksm_run" := PInt 0; "ksm_pages_to_scan" := PInt 64 ]} |}.

(** A file system that records the writes that succeed and refuses every
    write to the file of [run]. *)
Definition sysfs (fname text : string) (fs : list (string * string))
    : list (string * string) * option string :=
  if decide (fname = "/sys/kernel/mm/ksm/run")
  then (fs, Some "Permission denied")
  else (fs ++ [(fname, text)], None).

Definition sysfs_path (key : string) : string :=
  String.append "/sys/kernel/mm/ksm/" key.

End Examples.

(** * Properties of the collection cycle *)

Module MonitorFacts.
Import Collector Monitor.

Section facts.
Context {env : Type}.
Implicit Types (e : env) (m : Monitor env) (c : Collector env).
Implicit Types (cs pre post : list (Collector env)).
Implicit Types (data collected sample : gmap string pyval).
Implicit Types (k : string) (v : pyval).

(** *** The merge of one fragment *)

Lemma store_lookup key val data k :
  store key val data !! k =
    if decide (key = k) then
      match data !! key with
      | Some old => if is_None old then Some val else Some old
      | None => Some val
      end
    else data !! k.
Proof.
  unfold store. case_decide as Hk.
  - subst k. destruct (data !! key) as [old|] eqn:Hold.
    + destruct (is_None old); [apply lookup_insert_eq | done].
    + apply lookup_insert_eq.
  - destruct (data !! key) as [old|].
    + destruct (is_None old); [by apply lookup_insert_ne | done].
    + by apply lookup_insert_ne.
Qed.

(** Key by key, [merge] keeps a value that is not [None] and otherwise
    takes the fragment's value. *)
Lemma merge_lookup data collected k :
  merge data collected !! k =
    match data !! k with
    | Some old =>
        if is_None old then
          match collected !! k with Some v => Some v | None => Some old end
        else Some old
    | None => collected !! k
    end.
Proof.
  unfold merge. revert k.
  apply (map_fold_weak_ind
           (fun r (mm : gmap string pyval) => forall k,
              r !! k = match data !! k with
                       | Some old =>
                           if is_None old then
                             match mm !! k with
                             | Some v => Some v
                             | None => Some old
                             end
                           else Some old
                       | None => mm !! k
                       end)).
  - intros k. rewrite lookup_empty.
    destruct (data !! k) as [old|]; [by destruct (is_None old) | done].
  - intros i x mm r Hi IH k. rewrite store_lookup. case_decide as Hk.
    + subst k. rewrite IH, Hi, lookup_insert_eq.
      destruct (data !! i) as [old|]; [| done].
      destruct (is_None old) eqn:Hold; by rewrite ?Hold.
    + rewrite IH, lookup_insert_ne by done. done.
Qed.

Lemma merge_keeps data collected k v :
  data !! k = Some v -> v <> PNone -> merge data collected !! k = Some v.
Proof.
  intros Hk Hv. rewrite merge_lookup, Hk. by destruct v.
Qed.

Lemma merge_dom data collected : dom data ⊆ dom (merge data collected).
Proof.
  intros k [old Hk]%elem_of_dom. apply elem_of_dom.
  rewrite merge_lookup, Hk.
  destruct (is_None old); [destruct (collected !! k) |]; eauto.
Qed.

(** *** The loop over the collectors *)

Lemma gather_app e pre post data :
  gather e (pre ++ post) data =
    match gather e pre data with
    | Data data' => gather e post data'
    | Fatal msg => Fatal msg
    end.
Proof.
  revert data. induction pre as [|c pre IH]; intros data; simpl; [done |].
  destruct (Collector.collect c e) as [[collected|]| | |]; auto.
Qed.

Lemma gather_keeps e cs data data' k v :
  data !! k = Some v -> v <> PNone ->
  gather e cs data = Data data' -> data' !! k = Some v.
Proof.
  revert data. induction cs as [|c cs IH]; intros data Hk Hv; simpl.
  - by intros [= <-].
  - destruct (Collector.collect c e) as [[collected|]| | |];
      try (by apply IH); [| done].
    apply IH; [by apply merge_keeps | done].
Qed.

(** A fatal error anywhere in the list cuts the loop short. *)
Lemma gather_fatal e cs data :
  (exists c msg, c ∈ cs /\ Collector.collect c e = FatalError msg) ->
  exists msg, gather e cs data = Fatal msg.
Proof.
  revert data. induction cs as [|c cs IH]; intros data (c' & msg & Hin & Hc).
  - by apply elem_of_nil in Hin.
  - simpl. apply elem_of_cons in Hin as [-> | Hin].
    + rewrite Hc. eauto.
    + destruct (Collector.collect c e) as [[collected|]| | |]; eauto.
Qed.

(** *** Filling in the optional fields *)

Lemma setdefault_lookup key d data k :
  setdefault key d data !! k =
    match data !! k with
    | Some v => Some v
    | None => if decide (key = k) then Some d else None
    end.
Proof.
  unfold setdefault. destruct (data !! key) as [old|] eqn:Hold.
  - destruct (data !! k) eqn:Hk; [done |].
    case_decide; [congruence | done].
  - case_decide as Hkk.
    + subst k. by rewrite lookup_insert_eq, Hold.
    + rewrite lookup_insert_ne by done. by destruct (data !! k).
Qed.

Lemma fill_optional_lookup (os : gset string) data k :
  fill_optional os data !! k =
    match data !! k with
    | Some v => Some v
    | None => if decide (k ∈ os) then Some PNone else None
    end.
Proof.
  unfold fill_optional. revert k.
  refine (set_fold_ind_L
            (fun r (X : gset string) => forall k,
               r !! k = match data !! k with
                        | Some v => Some v
                        | None => if decide (k ∈ X) then Some PNone else None
                        end) _ _ _ _ os).
  - intros k. destruct (data !! k); [done |].
    case_decide; [set_solver | done].
  - intros x X r Hx IH k. rewrite setdefault_lookup, IH.
    destruct (data !! k); [done |].
    destruct (decide (k ∈ X)) as [HX|HX].
    + by rewrite decide_True by set_solver.
    + destruct (decide (x = k)) as [->|Hne].
      * by rewrite decide_True by set_solver.
      * rewrite decide_False; [done |].
        intros [Hk%elem_of_singleton | Hk]%elem_of_union; congruence.
Qed.

Lemma fill_optional_keeps (os : gset string) data k v :
  data !! k = Some v -> fill_optional os data !! k = Some v.
Proof. intros Hk. by rewrite fill_optional_lookup, Hk. Qed.

(** *** What a cycle returns *)

(** A returned sample is the accumulator of a loop that ran to its end,
    with the optional fields filled in. *)
Lemma collect_sample e m m' sample :
  collect e m = (m', Some sample) ->
  exists data,
    gather e (collectors m) ∅ = Data data /\
    mandatory m ⊆ dom data /\
    sample = fill_optional (optional m ∖ mandatory m) data.
Proof.
  unfold collect. simpl.
  destruct (gather e (collectors m) ∅) as [data|msg]; [| done].
  case_decide; [| done]. intros [= <- <-]. eauto.
Qed.

(** *** Priority between collectors *)

(** C1.  First writer wins for values that are not null: when the
    collectors earlier in the declared order have left a non-null value
    [v] for field [k] in the accumulator, no later collector replaces it,
    whatever it returns for [k], and the sample of the cycle holds [v]. *)
Theorem first_writer_wins e m pre post data k v :
  collectors m = pre ++ post ->
  gather e pre ∅ = Data data ->
  data !! k = Some v ->
  v <> PNone ->
  (forall data', gather e (collectors m) ∅ = Data data' ->
                 data' !! k = Some v) /\
  (forall m' sample, collect e m = (m', Some sample) ->
                     sample !! k = Some v).
Proof.
  intros Hcs Hpre Hk Hv.
  assert (Hacc : forall data', gather e (collectors m) ∅ = Data data' ->
                               data' !! k = Some v).
  { intros data'. rewrite Hcs, gather_app, Hpre. by apply gather_keeps. }
  split; [exact Hacc |].
  intros m' sample (data' & Hall & _ & ->)%collect_sample.
  apply fill_optional_keeps. by apply Hacc.
Qed.

(** C2, as the code has it.  A null written first does not stick: when
    the accumulator holds an explicit null for field [k] and the next
    collector returns a non-null value [v] for [k], the sample of the
    cycle holds [v]. *)
Theorem null_is_overwritten e m pre c post data collected k v m' sample :
  collectors m = pre ++ c :: post ->
  gather e pre ∅ = Data data ->
  data !! k = Some PNone ->
  Collector.collect c e = Returned (Some collected) ->
  collected !! k = Some v ->
  v <> PNone ->
  collect e m = (m', Some sample) ->
  sample !! k = Some v.
Proof.
  intros Hcs Hpre Hk Hc Hck Hv (data' & Hall & _ & ->)%collect_sample.
  rewrite Hcs, gather_app, Hpre in Hall. simpl in Hall.
  rewrite Hc in Hall.
  apply fill_optional_keeps. eapply gather_keeps; [| done | done].
  by rewrite merge_lookup, Hk, Hck.
Qed.

(** *** The field contract *)

Lemma elem_of_all_fields cs k :
  k ∈ all_fields cs <-> exists c, c ∈ cs /\ k ∈ getFields c.
Proof.
  unfold all_fields.
  assert (Hgen : forall (acc : gset string),
             k ∈ foldl (fun acc c => acc ∪ getFields c) acc cs <->
             k ∈ acc \/ exists c, c ∈ cs /\ k ∈ getFields c).
  { induction cs as [|c cs IH]; intros acc; simpl.
    - split; [by left |]. intros [? | (c & Hc & _)]; [done |].
      by apply elem_of_nil in Hc.
    - rewrite IH, elem_of_union. split.
      + intros [[? | ?] | (c' & ? & ?)]; [by left | right | right].
        * exists c. split; [apply elem_of_cons; by left | done].
        * exists c'. split; [apply elem_of_cons; by right | done].
      + intros [? | (c' & [-> | ?]%elem_of_cons & ?)];
          [by left; left | by left; right | right; eauto]. }
  rewrite Hgen. split; [| by right].
  intros [Hk | ?]; [| done]. by apply not_elem_of_empty in Hk.
Qed.

Lemma elem_of_all_optional_fields cs k :
  k ∈ all_optional_fields cs <->
  exists c, c ∈ cs /\ k ∈ getOptionalFields c.
Proof.
  unfold all_optional_fields.
  assert (Hgen : forall (acc : gset string),
             k ∈ foldl (fun acc c => acc ∪ getOptionalFields c) acc cs <->
             k ∈ acc \/ exists c, c ∈ cs /\ k ∈ getOptionalFields c).
  { induction cs as [|c cs IH]; intros acc; simpl.
    - split; [by left |]. intros [? | (c & Hc & _)]; [done |].
      by apply elem_of_nil in Hc.
    - rewrite IH, elem_of_union. split.
      + intros [[? | ?] | (c' & ? & ?)]; [by left | right | right].
        * exists c. split; [apply elem_of_cons; by left | done].
        * exists c'. split; [apply elem_of_cons; by right | done].
      + intros [? | (c' & [-> | ?]%elem_of_cons & ?)];
          [by left; left | by left; right | right; eauto]. }
  rewrite Hgen. split; [| by right].
  intros [Hk | ?]; [| done]. by apply not_elem_of_empty in Hk.
Qed.

(** What a cycle leaves in the fields it does not decide case by case. *)
Lemma collect_frame e m :
  fields (collect e m).1 = Some (mandatory m) /\
  optional_fields (collect e m).1 = Some (optional m ∖ mandatory m) /\
  collectors (collect e m).1 = collectors m /\
  config (collect e m).1 = config m.
Proof.
  unfold collect. simpl.
  destruct (gather e (collectors m) ∅) as [data|msg]; [| done].
  by case_decide.
Qed.

Lemma cycles_snoc (es : list env) e m :
  cycles (es ++ [e]) m = (collect e (cycles es m)).1.
Proof. unfold cycles. by rewrite foldl_snoc. Qed.

(** The field sets are computed in the first cycle and then stay. *)
Lemma cycles_fields cfg props cs (es : list env) :
  let m := cycles es (init cfg props cs) in
  collectors m = cs /\ config m = cfg /\
  mandatory m = all_fields cs /\
  optional m ∖ mandatory m = all_optional_fields cs ∖ all_fields cs.
Proof.
  induction es as [|e es IH] using rev_ind; [done |].
  rewrite cycles_snoc. simpl in *.
  destruct IH as (Hcs & Hcfg & Hfs & Hos).
  set (m0 := cycles es (init cfg props cs)) in *.
  destruct (collect_frame e m0) as (Hf & Ho & Hc & Hg).
  assert (Hm : mandatory (collect e m0).1 = mandatory m0)
    by (unfold mandatory at 1; by rewrite Hf).
  assert (Ho' : optional (collect e m0).1 = optional m0 ∖ mandatory m0)
    by (unfold optional at 1; by rewrite Ho).
  rewrite Hm, Ho', Hc, Hg, Hos, Hfs.
  repeat split; try done. set_solver.
Qed.

(** C3.  After every [collect()] the mandatory and the optional set of
    the monitor are disjoint, whatever state it was called in; and for a
    monitor run from its initial state the mandatory set is the union of
    the collectors' mandatory fields and the optional set is the union of
    their optional fields without the mandatory ones, so a field that any
    collector declares mandatory is not optional. *)
Theorem mandatory_optional_disjoint :
  (forall e m, exists fs os : gset string,
      fields (collect e m).1 = Some fs /\
      optional_fields (collect e m).1 = Some os /\
      fs ∩ os = ∅) /\
  (forall cfg props cs (es : list env) e,
      let m := cycles (es ++ [e]) (init cfg props cs) in
      exists fs os : gset string,
        fields m = Some fs /\ optional_fields m = Some os /\
        fs ∩ os = ∅ /\
        (forall k, k ∈ fs <-> exists c, c ∈ cs /\ k ∈ getFields c) /\
        (forall k, k ∈ os <->
                   (exists c, c ∈ cs /\ k ∈ getOptionalFields c) /\
                   ~ exists c, c ∈ cs /\ k ∈ getFields c)).
Proof.
  split.
  - intros e m. destruct (collect_frame e m) as (Hf & Ho & _).
    exists (mandatory m), (optional m ∖ mandatory m).
    repeat split; try done. set_solver.
  - intros cfg props cs es e m. unfold m. rewrite cycles_snoc.
    destruct (cycles_fields cfg props cs es) as (_ & _ & Hfs & Hos).
    destruct (collect_frame e (cycles es (init cfg props cs)))
      as (Hf & Ho & _).
    rewrite Hfs in Hf. rewrite Hos in Ho.
    exists (all_fields cs), (all_optional_fields cs ∖ all_fields cs).
    repeat split; try done.
    + set_solver.
    + by intros ?%elem_of_all_fields.
    + by intros ?%elem_of_all_fields.
    + apply elem_of_all_optional_fields. set_solver.
    + rewrite <- elem_of_all_fields. set_solver.
    + intros [Ho' Hf']. apply elem_of_difference.
      by rewrite elem_of_all_optional_fields, elem_of_all_fields.
Qed.

(** *** The bounded history *)

Lemma push_newest (n : Z) (st : list (gmap string pyval)) sample :
  (0 <= n)%Z -> length st <= Z.to_nat n ->
  push n st sample = newest (Z.to_nat n) (st ++ [sample]).
Proof.
  intros Hn Hlen. unfold push, newest.
  rewrite length_app. simpl.
  destruct (Z.gtb_spec (Z.of_nat (length st + 1)) n) as [Hgt | Hle].
  - assert (Heq : length st = Z.to_nat n) by lia.
    replace (length st + 1 - Z.to_nat n) with 1 by lia.
    by destruct st.
  - replace (length st + 1 - Z.to_nat n) with 0 by lia. done.
Qed.

Lemma newest_length (n : nat) (st : list (gmap string pyval)) :
  length (newest n st) <= n.
Proof. unfold newest. rewrite length_drop. lia. Qed.

Lemma newest_all (n : nat) (st : list (gmap string pyval)) :
  length st <= n -> newest n st = st.
Proof.
  intros Hlen. unfold newest.
  by replace (length st - n) with 0 by lia.
Qed.

(** Cutting a history down early does not change what is left in the
    end. *)
Lemma newest_app (n : nat) (st st' : list (gmap string pyval)) :
  newest n (newest n st ++ st') = newest n (st ++ st').
Proof.
  destruct (decide (length st <= n)) as [Hle | Hgt].
  - by rewrite (newest_all n st).
  - unfold newest at 1 3. rewrite !length_app.
    unfold newest. rewrite length_drop.
    replace (length st - (length st - n) + length st' - n)
      with (length st') by lia.
    replace (length st + length st' - n)
      with ((length st - n) + length st') by lia.
    rewrite <- drop_drop. f_equal.
    rewrite drop_app_le by lia. done.
Qed.

Lemma collect_statistics e m :
  statistics (collect e m).1 =
    match (collect e m).2 with
    | Some sample =>
        push (sample_history_length (config m)) (statistics m) sample
    | None => statistics m
    end.
Proof.
  unfold collect. simpl.
  destruct (gather e (collectors m) ∅) as [data|msg]; [| done].
  by case_decide.
Qed.

Lemma cycles_statistics (es : list env) m :
  (0 <= sample_history_length (config m))%Z ->
  length (statistics m) <= Z.to_nat (sample_history_length (config m)) ->
  statistics (cycles es m) =
    newest (Z.to_nat (sample_history_length (config m)))
           (statistics m ++ produced es m).
Proof.
  revert m. induction es as [|e es IH]; intros m Hn Hlen.
  - simpl. by rewrite app_nil_r, newest_all.
  - change (cycles (e :: es) m) with (cycles es (collect e m).1).
    pose proof (collect_statistics e m) as Hst.
    destruct (collect_frame e m) as (_ & _ & _ & Hcfg).
    simpl. destruct (collect e m) as [m1 [sample|]]; simpl in *.
    + rewrite push_newest in Hst by done.
      rewrite IH; rewrite Hcfg, ?Hst; [| done | apply newest_length].
      rewrite newest_app. by rewrite <- app_assoc.
    + rewrite IH; rewrite Hcfg, ?Hst; done.
Qed.

(** C4.  With a history length [N] (not negative) configured, a monitor
    run from its initial state never holds more than [N] samples: its
    history is the newest [N] of the samples its cycles returned, oldest
    first, and a sample appended to a full history evicts exactly the
    oldest entry. *)
Theorem history_bounded cfg props cs (es : list env) :
  (0 <= sample_history_length cfg)%Z ->
  let N := Z.to_nat (sample_history_length cfg) in
  let m := cycles es (init cfg props cs) in
  length (statistics m) <= N /\
  statistics m = newest N (produced es (init cfg props cs)) /\
  (forall e sample,
      (collect e m).2 = Some sample ->
      length (statistics m) = N ->
      statistics (collect e m).1 = tail (statistics m ++ [sample])).
Proof.
  intros Hn N m.
  assert (Hst : statistics m = newest N (produced es (init cfg props cs))).
  { unfold m. by rewrite cycles_statistics by (simpl; lia). }
  split; [rewrite Hst; apply newest_length |]. split; [done |].
  intros e sample Hs Hfull.
  destruct (cycles_fields cfg props cs es) as (_ & Hcfg & _).
  fold m in Hcfg.
  rewrite collect_statistics, Hs, Hcfg. unfold push.
  rewrite length_app. simpl.
  destruct (Z.gtb_spec (Z.of_nat (length (statistics m) + 1))
                       (sample_history_length cfg)); [done | lia].
Qed.

(** *** Cycles that fail and cycles that succeed *)

Lemma last_push (n : Z) (st : list (gmap string pyval)) sample :
  (0 < n)%Z -> last (push n st sample) = Some sample.
Proof.
  intros Hn. unfold push. rewrite length_app. simpl.
  destruct (Z.gtb_spec (Z.of_nat (length st + 1)) n) as [Hgt | Hle].
  - destruct st as [|s0 st]; [simpl in Hgt; lia |].
    simpl. apply last_snoc.
  - apply last_snoc.
Qed.

(** A cycle whose loop runs to its end with all mandatory fields. *)
Lemma complete_cycle e m data :
  gather e (collectors m) ∅ = Data data ->
  mandatory m ⊆ dom data ->
  exists sample,
    (collect e m).2 = Some sample /\
    ready (collect e m).1 = Some true /\
    _terminate (collect e m).1 = _terminate m /\
    statistics (collect e m).1 =
      push (sample_history_length (config m)) (statistics m) sample.
Proof.
  intros Hg Hsup. unfold collect. simpl. rewrite Hg.
  rewrite decide_True by done. simpl. eauto.
Qed.

(** C5.  A cycle whose accumulator lacks a mandatory field records no
    sample, leaves the monitor not ready and returns null; when the next
    cycle has all mandatory fields it appends its sample to the history
    and the monitor is ready again. *)
Theorem incomplete_cycle e m data :
  gather e (collectors m) ∅ = Data data ->
  ~ mandatory m ⊆ dom data ->
  let m1 := (collect e m).1 in
  (collect e m).2 = None /\
  statistics m1 = statistics m /\
  ready m1 = Some false /\ isReady m1 = false /\
  forall e2 data2,
    gather e2 (collectors m1) ∅ = Data data2 ->
    mandatory m1 ⊆ dom data2 ->
    exists sample,
      (collect e2 m1).2 = Some sample /\
      ready (collect e2 m1).1 = Some true /\
      isReady (collect e2 m1).1 = true /\
      statistics (collect e2 m1).1 =
        push (sample_history_length (config m)) (statistics m) sample /\
      ((0 < sample_history_length (config m))%Z ->
       last (statistics (collect e2 m1).1) = Some sample).
Proof.
  intros Hg Hmiss m1.
  assert (Hm1 : collect e m = (_set_not_ready
                   (set_fields (mandatory m) (optional m ∖ mandatory m) m),
                 None)).
  { unfold collect. simpl. rewrite Hg. by rewrite decide_False by done. }
  unfold m1. clear m1. rewrite Hm1. cbn [fst snd].
  do 4 (split; [reflexivity |]).
  intros e2 data2 Hg2 Hsup2.
  destruct (complete_cycle e2 _ data2 Hg2 Hsup2)
    as (sample & Hs & Hr & _ & Hst).
  exists sample. cbn in Hst.
  split; [done |]. split; [done |].
  split; [unfold isReady; by rewrite Hr |]. split; [done |].
  intros Hn. rewrite Hst. by apply last_push.
Qed.

(** C6.  When the [collect()] of any collector raises a fatal error, the
    cycle returns null, the monitor is not ready, its termination flag
    is set, [should_run] is false, and the history is as before. *)
Theorem fatal_error_terminates e m c msg :
  c ∈ collectors m ->
  Collector.collect c e = FatalError msg ->
  let m1 := (collect e m).1 in
  (collect e m).2 = None /\
  ready m1 = Some false /\ isReady m1 = false /\
  _terminate m1 = true /\ should_run m1 = false /\
  statistics m1 = statistics m.
Proof.
  intros Hin Hc m1.
  destruct (gather_fatal e (collectors m) ∅) as [msg' Hg]; [by eauto |].
  assert (Hm1 : collect e m = (terminate (_set_not_ready
                   (set_fields (mandatory m) (optional m ∖ mandatory m) m)),
                 None)).
  { unfold collect. simpl. by rewrite Hg. }
  unfold m1. rewrite Hm1. unfold should_run. simpl.
  repeat split; try done. apply andb_false_r.
Qed.

End facts.

(** With collector [A] (returns [{x: 5}]) before [B] (returns [{x: 9}])
    the sample has [x = 5]. *)
Lemma first_writer_wins_AB :
  let m := init Examples.cfg ∅ [Examples.A; Examples.B] in
  gather () [Examples.A] ∅ = Data {["x" := PInt 5]} /\
  Collector.collect Examples.B () = Returned (Some {["x" := PInt 9]}) /\
  exists sample, (collect () m).2 = Some sample /\
                 sample !! "x" = Some (PInt 5).
Proof.
  intros m. split; [by vm_compute |]. split; [reflexivity |].
  destruct (collect () m) as [m' [sample|]] eqn:Hm;
    [| by vm_compute in Hm].
  exists sample. split; [reflexivity |].
  assert (Hpre : gather () [Examples.A] ∅ = Data {["x" := PInt 5]})
    by (by vm_compute).
  assert (Hk : ({["x" := PInt 5]} : gmap string pyval) !! "x"
               = Some (PInt 5)) by (by vm_compute).
  assert (Hv : PInt 5 <> PNone) by discriminate.
  destruct (first_writer_wins () m [Examples.A] [Examples.B]
              {["x" := PInt 5]} "x" (PInt 5) eq_refl Hpre Hk Hv)
    as [_ Hsample].
  exact (Hsample m' sample Hm).
Defined.

(** With [A_null] (returns [{x: None}]) before [B] (returns [{x: 9}]) the
    sample has [x = 9], not null. *)
Lemma explicit_null_is_not_sticky :
  let m := init Examples.cfg ∅ [Examples.A_null; Examples.B] in
  Collector.collect Examples.A_null () = Returned (Some {["x" := PNone]}) /\
  Collector.collect Examples.B () = Returned (Some {["x" := PInt 9]}) /\
  exists sample, (collect () m).2 = Some sample /\
                 sample !! "x" = Some (PInt 9) /\
                 sample !! "x" <> Some PNone.
Proof.
  intros m. split; [reflexivity |]. split; [reflexivity |].
  eexists. split; [by vm_compute |]. split; [by vm_compute |].
  by vm_compute.
Qed.

Lemma null_is_overwritten_A_null_B :
  let m := init Examples.cfg ∅ [Examples.A_null; Examples.B] in
  gather () [Examples.A_null] ∅ = Data {["x" := PNone]} /\
  Collector.collect Examples.B () = Returned (Some {["x" := PInt 9]}) /\
  exists sample, (collect () m).2 = Some sample /\
                 sample !! "x" = Some (PInt 9).
Proof.
  intros m. split; [by vm_compute |]. split; [reflexivity |].
  destruct (collect () m) as [m' [sample|]] eqn:Hm;
    [| by vm_compute in Hm].
  exists sample. split; [reflexivity |].
  apply (null_is_overwritten () m [Examples.A_null] Examples.B []
           {["x" := PNone]} {["x" := PInt 9]} "x" (PInt 9) m' sample).
  - reflexivity.
  - by vm_compute.
  - by vm_compute.
  - reflexivity.
  - by vm_compute.
  - discriminate.
  - exact Hm.
Defined.

(** Three cycles with a history length of two. *)
Lemma history_bounded_three_cycles :
  let m0 := init Examples.cfg ∅ [Examples.A; Examples.B] in
  (0 <= sample_history_length Examples.cfg)%Z /\
  length (produced [(); (); ()] m0) = 3 /\
  length (statistics (cycles [(); (); ()] m0)) <= 2 /\
  statistics (cycles [(); (); ()] m0) = newest 2 (produced [(); (); ()] m0).
Proof.
  intros m0.
  assert (Hn : (0 <= sample_history_length Examples.cfg)%Z) by (simpl; lia).
  split; [exact Hn |]. split; [by vm_compute |].
  destruct (history_bounded Examples.cfg ∅ [Examples.A; Examples.B]
              [(); (); ()] Hn) as (Hlen & Hst & _).
  split; [exact Hlen | exact Hst].
Defined.

(** A collector that has no data in the first cycle and has it in the
    second. *)
Lemma incomplete_cycle_flaky :
  let m := init Examples.cfg ∅ [Examples.flaky] in
  let m1 := (collect false m).1 in
  gather false (collectors m) ∅ = Data ∅ /\
  ~ mandatory m ⊆ dom (∅ : gmap string pyval) /\
  (collect false m).2 = None /\
  statistics m1 = [] /\ ready m1 = Some false /\
  gather true (collectors m1) ∅ = Data {["x" := PInt 1]} /\
  exists sample,
    (collect true m1).2 = Some sample /\
    ready (collect true m1).1 = Some true /\
    statistics (collect true m1).1 = [sample].
Proof.
  intros m m1.
  assert (Hg : gather false (collectors m) ∅ = Data ∅) by (by vm_compute).
  assert (Hmiss : ~ mandatory m ⊆ dom (∅ : gmap string pyval)).
  { apply (bool_decide_eq_false_1
             (mandatory m ⊆ dom (∅ : gmap string pyval))).
    by vm_compute. }
  destruct (incomplete_cycle false m ∅ Hg Hmiss)
    as (Hret & Hst & Hr & _ & Hnext).
  assert (Hg2 : gather true (collectors m1) ∅ = Data {["x" := PInt 1]})
    by (by vm_compute).
  assert (Hsup : mandatory m1 ⊆ dom ({["x" := PInt 1]} : gmap string pyval)).
  { apply (bool_decide_eq_true_1
             (mandatory m1 ⊆ dom ({["x" := PInt 1]} : gmap string pyval))).
    by vm_compute. }
  destruct (Hnext true _ Hg2 Hsup) as (sample & Hs & Hr2 & _ & Hst2 & _).
  split; [exact Hg |]. split; [exact Hmiss |]. split; [exact Hret |].
  split; [exact Hst |]. split; [exact Hr |]. split; [exact Hg2 |].
  exists sample. split; [exact Hs |]. split; [exact Hr2 |].
  fold m1 in Hst2. rewrite Hst2. reflexivity.
Defined.

(** A collector whose [collect()] raises a fatal error, after one that
    works. *)
Lemma fatal_error_terminates_broken :
  let m := init Examples.cfg ∅ [Examples.A; Examples.broken] in
  Examples.broken ∈ collectors m /\
  Collector.collect Examples.broken () = FatalError "gone" /\
  should_run m = true /\
  (collect () m).2 = None /\
  ready (collect () m).1 = Some false /\
  _terminate (collect () m).1 = true /\
  should_run (collect () m).1 = false /\
  statistics (collect () m).1 = [].
Proof.
  intros m.
  assert (Hin : Examples.broken ∈ collectors m).
  { simpl. apply elem_of_cons. right. apply elem_of_cons. by left. }
  destruct (fatal_error_terminates () m Examples.broken "gone" Hin eq_refl)
    as (Hret & Hr & _ & Ht & Hrun & Hst).
  split; [exact Hin |]. split; [reflexivity |]. split; [reflexivity |].
  split; [exact Hret |]. split; [exact Hr |]. split; [exact Ht |].
  split; [exact Hrun | exact Hst].
Defined.

End MonitorFacts.

(** * Properties of the collector resolver *)

Module CollectorFacts.
Import Collector.

Section facts.
Context {env : Type}.
Variable create : string -> gmap string propval -> created env.
Variable global_config : GlobalConfig.
Implicit Types (names pre post : list string) (name : string).
Implicit Types (properties : gmap string propval).
Implicit Types (collectors : list (Collector env)).

Lemma lstrip_idemp (s : string) : lstrip (lstrip s) = lstrip s.
Proof.
  induction s as [|c s IH]; [done |]. simpl.
  destruct (is_whitespace c) eqn:Hc; [done |]. simpl. by rewrite Hc.
Qed.

(** The loop behaves as if it ran over the stripped, non-empty names. *)
Lemma resolve_filter names properties collectors :
  resolve create global_config names properties collectors =
  resolve create global_config
    (filter (fun n => n ≠ EmptyString) (lstrip <$> names))
    properties collectors.
Proof.
  revert properties collectors.
  induction names as [|name names IH]; intros properties collectors;
    [done |].
  rewrite fmap_cons, filter_cons. simpl.
  destruct (decide (lstrip name = EmptyString)) as [Heq | Hne].
  - rewrite decide_False by (by intros ?). apply IH.
  - rewrite decide_True by done. simpl. rewrite lstrip_idemp.
    rewrite decide_False by done.
    destruct (create _ _); auto.
Qed.

Lemma names_of_stripped (config_str : string) :
  Forall stripped (names_of config_str).
Proof.
  unfold names_of. apply Forall_forall. intros n Hn.
  apply list_elem_of_filter in Hn as [Hne Hn].
  apply list_elem_of_fmap in Hn as (raw & -> & _).
  split; [apply lstrip_idemp | done].
Qed.

Lemma resolve_fails pre name post properties collectors :
  Forall stripped (pre ++ name :: post) ->
  fails (create name (properties_for global_config pre name properties)) ->
  let r := (resolve create global_config (pre ++ name :: post)
              properties collectors).2 in
  (r = Return None \/ r = Raise) /\
  ((forall n p, create n p <> RaisedOther) -> r = Return None).
Proof.
  revert properties collectors.
  induction pre as [|n pre IH]; intros properties collectors Hok Hfail.
  - apply Forall_cons in Hok as [[Hstrip Hne] _]. simpl.
    rewrite Hstrip, decide_False by done.
    unfold properties_for in Hfail. simpl in Hfail.
    destruct Hfail as [-> | [msg ->]]; simpl; auto.
  - simpl in Hok. apply Forall_cons in Hok as [[Hstrip Hne] Hok]. simpl.
    rewrite Hstrip, decide_False by done.
    destruct (create n (with_section global_config n properties))
      as [c | | msg |] eqn:Hc; simpl.
    + apply IH; [done | exact Hfail].
    + auto.
    + auto.
    + split; [by right |]. intros Hno. by destruct (Hno _ _ Hc).
Qed.

(** A list that is returned holds one instance for each configured
    name, in order. *)
Lemma resolve_complete names properties collectors properties' cs :
  Forall stripped names ->
  resolve create global_config names properties collectors
    = (properties', Return (Some cs)) ->
  exists cs', cs = collectors ++ cs' /\
              Forall2 (fun n c => exists p, create n p = Instance c)
                      names cs'.
Proof.
  revert properties collectors.
  induction names as [|n names IH]; intros properties collectors Hok.
  - simpl. intros [= _ <-]. exists []. by rewrite app_nil_r.
  - apply Forall_cons in Hok as [[Hstrip Hne] Hok]. simpl.
    rewrite Hstrip, decide_False by done.
    destruct (create n (with_section global_config n properties))
      as [c | | msg |] eqn:Hc; try done.
    intros (cs' & -> & Hall)%IH; [| done].
    exists (c :: cs'). rewrite <- app_assoc. split; [done |].
    constructor; eauto.
Qed.

(** C8.  When a configured name cannot be imported, or the construction
    of its collector fails with a fatal error, [get_collectors] yields no
    list of collectors at all: it returns [None] (or an exception of an
    earlier collector has already left the function), whatever the other
    names construct, so never the collectors that did construct. *)
Theorem all_or_nothing (config_str : string) properties pre name post :
  names_of config_str = pre ++ name :: post ->
  fails (create name (properties_for global_config pre name properties)) ->
  let r := (get_collectors create global_config config_str properties).2 in
  (forall cs, r <> Return (Some cs)) /\
  (r = Return None \/ r = Raise) /\
  ((forall n p, create n p <> RaisedOther) -> r = Return None).
Proof.
  intros Hnames Hfail r.
  assert (Hr : (r = Return None \/ r = Raise) /\
               ((forall n p, create n p <> RaisedOther) -> r = Return None)).
  { unfold r, get_collectors.
    destruct (decide (is_Some (properties !! "config"))); [by auto |].
    rewrite resolve_filter. fold (names_of config_str). rewrite Hnames.
    apply resolve_fails; [| done].
    rewrite <- Hnames. apply names_of_stripped. }
  split; [| done]. intros cs Hcs. destruct Hr as [[Hr | Hr] _]; congruence.
Qed.

End facts.

(** [A] is constructed, then the constructor of [Broken] raises a fatal
    error: nothing is returned, not even [A]. *)
Lemma all_or_nothing_broken :
  let r := (get_collectors Examples.plugins Examples.no_sections
              "A, Broken, A" ∅).2 in
  names_of "A, Broken, A" = ["A"] ++ "Broken" :: ["A"] /\
  Examples.plugins "A" ∅ = Instance Examples.A /\
  Examples.plugins "Broken" ∅ = RaisedFatalError "no such device" /\
  r = Return None.
Proof.
  intros r.
  assert (Hnames : names_of "A, Broken, A" = ["A"] ++ "Broken" :: ["A"])
    by (by vm_compute).
  assert (Hfail : fails (Examples.plugins "Broken"
                           (properties_for Examples.no_sections
                              ["A"] "Broken" ∅))).
  { right. by exists "no such device". }
  destruct (all_or_nothing Examples.plugins Examples.no_sections
              "A, Broken, A" ∅ ["A"] "Broken" ["A"] Hnames Hfail)
    as (_ & _ & Hnone).
  split; [exact Hnames |]. split; [reflexivity |]. split; [reflexivity |].
  apply Hnone. intros n p. unfold Examples.plugins.
  destruct (decide (n = "A")); [discriminate |].
  destruct (decide (n = "Broken")); discriminate.
Defined.

End CollectorFacts.

(** * Properties of the KSM controller *)

Module KSMFacts.
Import KSM.

Section facts.
Variable int_of_str : string -> option Z.
Context {HV : Type}.
Variable ksmTune : list (string * Z) -> HV -> HV * option exn.
Implicit Types (host : Host) (guests : list Host) (hv : HV).
Implicit Types (key : string) (ks : list string) (z : Z).
Implicit Types (outputs : list (string * Z)) (tr : list event).

Lemma setitem_fresh key z outputs :
  key ∉ outputs.*1 -> setitem key z outputs = outputs ++ [(key, z)].
Proof.
  induction outputs as [|[k v] outputs IH]; intros Hk; [done |].
  simpl in *. apply not_elem_of_cons in Hk as [Hne Hk].
  rewrite decide_False by done. by rewrite IH.
Qed.

Lemma calls_app tr tr' : calls (tr ++ tr') = calls tr ++ calls tr'.
Proof. unfold calls. apply omap_app. Qed.

Lemma changed_key host key kv :
  changed int_of_str host key = Some kv -> kv.1 = key.
Proof.
  unfold changed. destruct (is_None _); [done |].
  destruct (int _ _); [| done].
  destruct (int_ne _ _); [| done]. by intros [= <-].
Qed.

Lemma changed_keys host ks key :
  key ∈ (omap (changed int_of_str host) ks).*1 -> key ∈ ks.
Proof.
  intros ([k z] & -> & Hin)%list_elem_of_fmap.
  apply list_elem_of_omap in Hin as (key & Hkey & Hch).
  apply changed_key in Hch. simpl in Hch. by subst.
Qed.

Lemma changed_NoDup host ks :
  NoDup ks -> NoDup (omap (changed int_of_str host) ks).*1.
Proof.
  induction 1 as [|key ks Hkey Hnd IH]; simpl; [constructor |].
  destruct (changed int_of_str host key) as [kv|] eqn:Hch; [| done].
  simpl. apply changed_key in Hch as ->. constructor; [| done].
  by intros ?%changed_keys.
Qed.

Lemma changed_differs host key z :
  key ∈ keys ->
  (changed int_of_str host key = Some (key, z) <->
   differs int_of_str host key z).
Proof.
  intros Hkey. unfold changed, differs.
  destruct (is_None _).
  { split; [done | by intros (_ & ? & _)]. }
  destruct (int _ _) as [z' | e].
  2:{ split; [done | by intros (_ & _ & ? & _)]. }
  destruct (int_ne z' _) eqn:Hne.
  - split.
    + intros [= ->]. by rewrite Hne.
    + by intros (_ & _ & [= ->] & _).
  - split; [done |]. intros (_ & _ & [= ->] & Hne'). congruence.
Qed.

(** The loop leaves in [outputs] the knobs that changed, in the order of
    the keys, and calls nothing. *)
Lemma scan_changed host ks outputs tr :
  Forall (fun key =>
            is_None (GetControl host (String.append "ksm_" key)) = false ->
            exists z,
              int int_of_str (GetControl host (String.append "ksm_" key))
                = inl z) ks ->
  NoDup ks ->
  (forall key, key ∈ ks -> key ∉ outputs.*1) ->
  exists tr',
    scan int_of_str host ks outputs tr =
      (tr ++ tr', inl (outputs ++ omap (changed int_of_str host) ks)) /\
    calls tr' = [].
Proof.
  revert outputs tr.
  induction ks as [|key ks IH]; intros outputs tr Hco Hnd Hfresh.
  - exists []. simpl. by rewrite !app_nil_r.
  - apply Forall_cons in Hco as [Hkey Hco].
    apply NoDup_cons in Hnd as [Hnotin Hnd].
    simpl. unfold changed.
    destruct (is_None (GetControl host (String.append "ksm_" key))) eqn:Hn.
    + apply IH; [done | done |].
      intros k Hk. apply Hfresh. by right.
    + destruct (Hkey eq_refl) as [z Hz]. rewrite Hz.
      destruct (int_ne z _) eqn:Hne.
      * rewrite setitem_fresh by (apply Hfresh; by left).
        destruct (IH (outputs ++ [(key, z)])
                     (tr ++ [Debug_changed (String.append "ksm_" key)
                               (getattr host (String.append "ksm_" key)
                                        PNone) z]))
          as (tr' & -> & Hcalls); [done | done | |].
        { intros k Hk. rewrite fmap_app. simpl.
          intros [Hin | Hin%list_elem_of_singleton]%elem_of_app.
          - revert Hin. apply Hfresh. by right.
          - by subst. }
        eexists (_ :: tr'). rewrite <- !app_assoc. simpl.
        split; [done |]. exact Hcalls.
      * apply IH; [done | done |].
        intros k Hk. apply Hfresh. by right.
Qed.

Lemma keys_NoDup : NoDup keys.
Proof. apply (bool_decide_unpack _). by vm_compute. Qed.

(** The calls of a cycle: none when no knob changed, otherwise one with
    the knobs that changed. *)
Lemma process_calls host guests hv :
  coercible int_of_str host ->
  calls (process int_of_str ksmTune host guests hv).1.2 =
    match omap (changed int_of_str host) keys with
    | [] => []
    | outputs => [outputs]
    end.
Proof.
  intros Hco. unfold process.
  destruct (scan_changed host keys [] [] Hco keys_NoDup)
    as (tr' & -> & Hcalls).
  { intros key _. apply not_elem_of_nil. }
  cbn [app].
  destruct (omap (changed int_of_str host) keys) as [|kv outputs].
  - simpl. exact Hcalls.
  - cbn [length Nat.ltb Nat.leb].
    destruct (ksmTune (kv :: outputs) hv) as [hv' r]. cbn [fst snd].
    rewrite calls_app, Hcalls. reflexivity.
Qed.

Lemma elem_of_changed host key z :
  (key, z) ∈ omap (changed int_of_str host) keys <->
  differs int_of_str host key z.
Proof.
  rewrite list_elem_of_omap. split.
  - intros (k & Hk & Hch).
    pose proof (changed_key _ _ _ Hch) as Heq. simpl in Heq. subst k.
    by apply changed_differs.
  - intros Hd. exists key. split; [apply Hd |].
    apply changed_differs; [apply Hd | done].
Qed.

Lemma omap_nil_changed host ks :
  omap (changed int_of_str host) ks = [] <->
  forall key, key ∈ ks -> changed int_of_str host key = None.
Proof.
  induction ks as [|key ks IH]; simpl.
  - split; [| done]. intros _ key Hkey. by apply elem_of_nil in Hkey.
  - destruct (changed int_of_str host key) as [kv|] eqn:Hch.
    + split; [done |]. intros Hall.
      specialize (Hall key (list_elem_of_here _ _)). congruence.
    + rewrite IH. split.
      * intros Hall k [-> | Hk]%elem_of_cons; auto.
      * intros Hall k Hk. apply Hall. by right.
Qed.

Lemma unchanged_changed host :
  coercible int_of_str host ->
  (unchanged int_of_str host <->
   omap (changed int_of_str host) keys = []).
Proof.
  intros Hco. rewrite omap_nil_changed. unfold unchanged, changed.
  unfold coercible in Hco. rewrite Forall_forall in Hco.
  split.
  - intros Hun key Hkey.
    destruct (is_None _) eqn:Hn; [done |].
    destruct (Hun key Hkey Hn) as (z & -> & ->). done.
  - intros Hall key Hkey Hn.
    destruct (Hco key Hkey Hn) as [z Hz]. exists z. split; [done |].
    specialize (Hall key Hkey). rewrite Hn, Hz in Hall.
    by destruct (int_ne z _).
Qed.

(** The whole result of a cycle whose desired values can be coerced:
    with no knob to change, nothing but the loop; otherwise the state and
    the exception are those that [ksmTune] leaves for the batch. *)
Lemma process_run host guests hv :
  coercible int_of_str host ->
  exists tr',
    calls tr' = [] /\
    process int_of_str ksmTune host guests hv =
      match omap (changed int_of_str host) keys with
      | [] => (hv, tr', None)
      | outputs =>
          ((ksmTune outputs hv).1,
           tr' ++ [Info_updating outputs; Call_ksmTune outputs],
           (ksmTune outputs hv).2)
      end.
Proof.
  intros Hco. unfold process.
  destruct (scan_changed host keys [] [] Hco keys_NoDup)
    as (tr' & -> & Hcalls).
  { intros key _. apply not_elem_of_nil. }
  exists tr'. split; [exact Hcalls |]. cbn [app].
  destruct (omap (changed int_of_str host) keys) as [|kv outputs];
    [done |].
  cbn [length Nat.ltb Nat.leb].
  by destruct (ksmTune (kv :: outputs) hv).
Qed.

(** C7, as the code has it.  In every call of [process] in which [int()]
    can coerce the desired values that are present: a knob without a
    desired value is in no batch; when every present desired value, once
    coerced, equals the value last applied, the hypervisor is not called
    and is left as it was; otherwise [ksmTune] is applied exactly once,
    to exactly the knobs whose coerced desired value differs from the
    value last applied, and the cycle ends in the state and with the
    exception that this one application leaves. *)
Theorem process_writes_only_changes host guests hv :
  coercible int_of_str host ->
  let run := process int_of_str ksmTune host guests hv in
  (forall key outputs,
      GetControl host (String.append "ksm_" key) = PNone ->
      outputs ∈ calls run.1.2 -> key ∉ outputs.*1) /\
  (unchanged int_of_str host ->
   calls run.1.2 = [] /\ run.1.1 = hv /\ run.2 = None) /\
  (~ unchanged int_of_str host ->
   exists outputs,
     calls run.1.2 = [outputs] /\ NoDup outputs.*1 /\
     (forall key z,
        (key, z) ∈ outputs <-> differs int_of_str host key z) /\
     run.1.1 = (ksmTune outputs hv).1 /\
     run.2 = (ksmTune outputs hv).2).
Proof.
  intros Hco run. unfold run.
  destruct (process_run host guests hv Hco) as (tr' & Hcalls & ->).
  pose proof (unchanged_changed host Hco) as Hun.
  pose proof (changed_NoDup host keys keys_NoDup) as Hnd.
  pose proof (elem_of_changed host) as Hin.
  destruct (omap (changed int_of_str host) keys) as [|kv outputs].
  - cbn [fst snd]. rewrite Hcalls. split; [| split].
    + by intros key outputs _ ?%elem_of_nil.
    + done.
    + intros Hne. destruct Hne. by apply Hun.
  - cbn [fst snd]. rewrite calls_app, Hcalls. simpl. split; [| split].
    + intros key outs Hnone ->%list_elem_of_singleton.
      intros ([k z] & -> & Hd%Hin)%list_elem_of_fmap.
      destruct Hd as (_ & Hpresent & _). simpl in Hnone.
      by rewrite Hnone in Hpresent.
    + intros Heq%Hun. discriminate.
    + intros _. by exists (kv :: outputs).
Qed.

(** C10, as the code has it.  A knob with a desired value on a host
    object that has no attribute for it, in a call in which [int()] can
    coerce the desired values that are present: the lookup of the last
    applied value gives [None], the coerced desired value compares
    unequal to it, and the knob is in the one batch to which the cycle
    applies [ksmTune]; what the host really has is not looked at. *)
Theorem missing_attribute_is_written host guests hv key z :
  coercible int_of_str host ->
  key ∈ keys ->
  is_None (GetControl host (String.append "ksm_" key)) = false ->
  int int_of_str (GetControl host (String.append "ksm_" key)) = inl z ->
  attrs host !! String.append "ksm_" key = None ->
  let run := process int_of_str ksmTune host guests hv in
  getattr host (String.append "ksm_" key) PNone = PNone /\
  int_ne z PNone = true /\
  exists outputs,
    calls run.1.2 = [outputs] /\
    (key, z) ∈ outputs /\
    run.1.1 = (ksmTune outputs hv).1 /\
    run.2 = (ksmTune outputs hv).2.
Proof.
  intros Hco Hkey Hpresent Hint Hattr run.
  assert (Hget : getattr host (String.append "ksm_" key) PNone = PNone)
    by (unfold getattr; by rewrite Hattr).
  split; [done |]. split; [done |].
  assert (Hd : differs int_of_str host key z)
    by (unfold differs; by rewrite Hget).
  apply elem_of_changed in Hd. unfold run.
  destruct (process_run host guests hv Hco) as (tr' & Hcalls & ->).
  destruct (omap (changed int_of_str host) keys) as [|kv outputs];
    [by apply elem_of_nil in Hd |].
  exists (kv :: outputs). cbn [fst snd].
  rewrite calls_app, Hcalls. done.
Qed.

(** The loop itself calls nothing, whatever it meets. *)
Lemma scan_calls host ks outputs tr :
  calls (scan int_of_str host ks outputs tr).1 = calls tr.
Proof.
  revert outputs tr. induction ks as [|key ks IH]; intros outputs tr;
    [done |].
  simpl. destruct (is_None _); [apply IH |].
  destruct (int _ _) as [z | e]; [| done].
  destruct (int_ne z _); [| apply IH].
  rewrite IH, calls_app. simpl. apply app_nil_r.
Qed.

(** An exception of the loop is one of [int]'s. *)
Lemma scan_error host ks outputs tr e :
  (scan int_of_str host ks outputs tr).2 = inr e ->
  e = TypeError \/ e = ValueError.
Proof.
  revert outputs tr. induction ks as [|key ks IH]; intros outputs tr;
    [done |].
  simpl. destruct (is_None _); [apply IH |].
  destruct (GetControl host (String.append "ksm_" key)) as [|b|z|s];
    simpl.
  - intros [= <-]. by left.
  - destruct (int_ne _ _); apply IH.
  - destruct (int_ne _ _); apply IH.
  - destruct (int_of_str s) as [z|].
    + destruct (int_ne _ _); apply IH.
    + intros [= <-]. by right.
Qed.

End facts.

Section files.
Variable int_of_str : string -> option Z.
Context {FS : Type}.
Variable os_write : string -> string -> FS -> FS * option string.
Variable knob_path : string -> string.
Implicit Types (host : Host) (guests : list Host) (fs : FS).
Implicit Types (outputs : list (string * Z)) (log : list event).

(** The batched operation attempts every write, one after the other,
    logs the ones that fail, and raises nothing. *)
Lemma ksmTune_files_run outputs fs log :
  ksmTune_files os_write knob_path outputs (fs, log) =
    ((attempt_all os_write (writes_of knob_path outputs) fs,
      log ++ warnings os_write (writes_of knob_path outputs) fs), None).
Proof.
  unfold ksmTune_files. f_equal. revert fs log.
  induction outputs as [|[key z] outputs IH]; intros fs log; simpl.
  - by rewrite app_nil_r.
  - unfold write_value at 2. simpl.
    destruct (os_write (knob_path key) (pretty z) fs) as [fs' [err|]];
      rewrite IH; simpl; [| done].
    by rewrite <- app_assoc.
Qed.

(** C9.  With a hypervisor interface that writes each knob of a batch
    with [write_value]: no write error leaves [process] (and nothing
    else does when the desired values can be coerced); every knob of the
    batch is attempted in turn whether or not an earlier write failed,
    and every failed write leaves one warning in the log. *)
Theorem write_failures_are_contained host guests fs log :
  let run := process int_of_str (ksmTune_files os_write knob_path)
               host guests (fs, log) in
  (forall strerror, run.2 <> Some (IOError strerror)) /\
  (coercible int_of_str host -> run.2 = None) /\
  (forall outputs, outputs ∈ calls run.1.2 ->
     run.1.1.1 = attempt_all os_write (writes_of knob_path outputs) fs /\
     run.1.1.2 =
       log ++ warnings os_write (writes_of knob_path outputs) fs).
Proof.
  intros run. unfold run, process.
  pose proof (scan_calls int_of_str host keys [] []) as Hcalls.
  pose proof (scan_error int_of_str host keys [] []) as Herr.
  pose proof (fun Hco => scan_changed int_of_str host keys [] []
                           Hco keys_NoDup) as Hok.
  destruct (scan int_of_str host keys [] []) as [tr [outputs | e]];
    simpl in Hcalls, Herr.
  - destruct (0 <? length outputs) eqn:Hlen.
    + rewrite ksmTune_files_run. cbn [fst snd].
      split; [done |]. split; [done |].
      intros outs. rewrite calls_app, Hcalls. simpl.
      by intros ->%list_elem_of_singleton.
    + cbn [fst snd]. split; [done |]. split; [done |].
      intros outs. rewrite Hcalls. by intros ?%elem_of_nil.
  - cbn [fst snd]. split; [| split].
    + intros strerror [= ->]. by destruct (Herr _ eq_refl).
    + intros Hco. destruct (Hok Hco) as (tr' & Heq & _).
      { intros key _. apply not_elem_of_nil. }
      discriminate.
    + intros outs. rewrite Hcalls. by intros ?%elem_of_nil.
Qed.

End files.

(** One knob among four differs: [ksmTune] is applied once, to that knob
    alone, and what it raises leaves [process]. *)
Lemma process_one_changed_knob :
  let run := process Examples.no_text Examples.refuse Examples.host1 [] 0 in
  coercible Examples.no_text Examples.host1 /\
  ~ unchanged Examples.no_text Examples.host1 /\
  calls run.1.2 = [[("pages_to_scan", 100%Z)]] /\
  exists outputs,
    calls run.1.2 = [outputs] /\
    run.1.1 = (Examples.refuse outputs 0).1 /\
    run.2 = (Examples.refuse outputs 0).2.
Proof.
  intros run.
  assert (Hco : coercible Examples.no_text Examples.host1).
  { unfold coercible, keys.
    repeat (apply List.Forall_cons;
            [intros Hn; first [by vm_compute in Hn | by eexists] |]).
    apply List.Forall_nil. }
  destruct (process_writes_only_changes Examples.no_text Examples.refuse
              Examples.host1 [] 0 Hco) as (_ & Hsame & Hdiff).
  assert (Hnot : ~ unchanged Examples.no_text Examples.host1).
  { intros Hun. destruct (Hsame Hun) as [Hc _]. by vm_compute in Hc. }
  split; [exact Hco |]. split; [exact Hnot |]. split; [by vm_compute |].
  destruct (Hdiff Hnot) as (outputs & Hc & _ & _ & Hhv & Hr).
  exists outputs. split; [exact Hc |]. split; [exact Hhv | exact Hr].
Defined.

(** A knob differs but another directive is no number: [process] raises
    and the hypervisor is not called, so not every call of [process] with
    a differing knob issues a batch. *)
Lemma changed_knob_is_not_written :
  let run := process Examples.no_text Examples.accept Examples.host_bad
               [] () in
  differs Examples.no_text Examples.host_bad "run" 1 /\
  ~ unchanged Examples.no_text Examples.host_bad /\
  calls run.1.2 = [] /\ run.2 = Some ValueError.
Proof.
  intros run.
  assert (Hd : differs Examples.no_text Examples.host_bad "run" 1).
  { split; [apply list_elem_of_here |]. by vm_compute. }
  split; [exact Hd |]. split; [| split; by vm_compute].
  intros Hun. destruct Hd as (Hkey & Hn & Hz & Hne).
  destruct (Hun "run" Hkey Hn) as (z & Hz' & Hne').
  rewrite Hz in Hz'. injection Hz' as <-. rewrite Hne in Hne'. discriminate.
Qed.

(** The first cycle for a host without attributes applies [ksmTune] to a
    batch with [run]. *)
Lemma missing_attribute_is_written_host0 :
  let run := process Examples.no_text Examples.refuse Examples.host0 [] 0 in
  coercible Examples.no_text Examples.host0 /\
  KSM.attrs Examples.host0 !! "ksm_run" = None /\
  exists outputs,
    calls run.1.2 = [outputs] /\
    ("run", 1%Z) ∈ outputs /\
    run.1.1 = (Examples.refuse outputs 0).1 /\
    run.2 = (Examples.refuse outputs 0).2.
Proof.
  intros run.
  assert (Hco : coercible Examples.no_text Examples.host0).
  { unfold coercible, keys.
    repeat (apply List.Forall_cons;
            [intros Hn; first [by vm_compute in Hn | by eexists] |]).
    apply List.Forall_nil. }
  split; [exact Hco |]. split; [reflexivity |].
  assert (Hkey : "run" ∈ keys) by apply list_elem_of_here.
  destruct (missing_attribute_is_written Examples.no_text Examples.refuse
              Examples.host0 [] 0 "run" 1%Z Hco Hkey eq_refl eq_refl eq_refl)
    as (_ & _ & Hex).
  exact Hex.
Defined.

(** A host without attributes wants [run], and another directive is no
    number: [process] raises and [run] is not written. *)
Lemma missing_attribute_is_not_written :
  let run := process Examples.no_text Examples.accept Examples.host_bad0
               [] () in
  is_None (GetControl Examples.host_bad0 "ksm_run") = false /\
  int Examples.no_text (GetControl Examples.host_bad0 "ksm_run") = inl 1%Z /\
  KSM.attrs Examples.host_bad0 !! "ksm_run" = None /\
  calls run.1.2 = [] /\ run.2 = Some ValueError.
Proof.
  intros run. split; [reflexivity |]. split; [reflexivity |].
  split; [reflexivity |]. split; by vm_compute.
Qed.

(** The write of [run] fails; [pages_to_scan] is written all the same, the
    failure is logged and nothing is raised. *)
Lemma write_failures_are_contained_sysfs :
  let run := process Examples.no_text
               (ksmTune_files Examples.sysfs Examples.sysfs_path)
               Examples.host2 [] ([], []) in
  calls run.1.2 = [[("run", 1%Z); ("pages_to_scan", 100%Z)]] /\
  run.2 = None /\
  run.1.1.1 = [("/sys/kernel/mm/ksm/pages_to_scan", "100")] /\
  run.1.1.2 = [Warning_failed "/sys/kernel/mm/ksm/run" "Permission denied"].
Proof.
  intros run.
  destruct (write_failures_are_contained Examples.no_text Examples.sysfs
              Examples.sysfs_path Examples.host2 [] [] [])
    as (_ & _ & Hall).
  assert (Hcalls : calls run.1.2 = [[("run", 1%Z); ("pages_to_scan", 100%Z)]])
    by (by vm_compute).
  fold run in Hall.
  destruct (Hall [("run", 1%Z); ("pages_to_scan", 100%Z)]) as [Hfs Hlog].
  { rewrite Hcalls. apply list_elem_of_here. }
  split; [exact Hcalls |]. split; [by vm_compute |].
  split; [rewrite Hfs; by vm_compute | rewrite Hlog; by vm_compute].
Defined.

End KSMFacts.

(** * More about the collection cycle *)

Module MonitorMore.
Import Collector Monitor MonitorFacts.

Section more.
Context {env : Type}.
Implicit Types (e : env) (m : Monitor env) (c : Collector env).
Implicit Types (cs pre post : list (Collector env)).
Implicit Types (data collected sample : gmap string pyval).
Implicit Types (k : string) (v : pyval).

(** *** The value of a field in a sample *)

Lemma first_value_single k collected :
  first_value k [collected] = collected !! k.
Proof.
  simpl. destruct (collected !! k) as [v|]; [| done]. by destruct v.
Qed.

(** Merging a fragment into the accumulator counts like putting the
    accumulator in front of the fragment. *)
Lemma first_value_merge k data collected ds :
  first_value k (merge data collected :: ds) =
  first_value k (data :: collected :: ds).
Proof.
  simpl. rewrite merge_lookup.
  destruct (data !! k) as [old|]; [| done].
  destruct (is_None old) eqn:Hold; [| by rewrite Hold].
  destruct (collected !! k) as [v|]; [| by rewrite Hold].
  destruct (is_None v) eqn:Hv; [| done]. simpl.
  destruct old, v; try done.
Qed.

Lemma gather_first_value e cs data data' k :
  gather e cs data = Data data' ->
  data' !! k = first_value k (data :: fragments e cs).
Proof.
  revert data. induction cs as [|c cs IH]; intros data; simpl.
  - intros [= <-]. destruct (data !! k) as [v|]; [| done]. by destruct v.
  - unfold fragments. simpl. fold (fragments e cs).
    destruct (Collector.collect c e) as [[collected|]| | |];
      try (by apply IH); [| done].
    intros Hg%IH. rewrite Hg, first_value_merge. done.
Qed.

(** X1.  The value of a field in the sample of a cycle is the first value
    that is not null among those the collectors returned for it, in
    declared order; it is null when they returned nothing but nulls, or
    returned nothing for a field that is optional; and a field that no
    collector returned and that is not optional is not in the sample. *)
Theorem sample_value e m m' sample k :
  collect e m = (m', Some sample) ->
  sample !! k =
    match first_value k (fragments e (collectors m)) with
    | Some v => Some v
    | None => if decide (k ∈ optional m ∖ mandatory m) then Some PNone
              else None
    end.
Proof.
  intros (data & Hg & _ & ->)%collect_sample.
  rewrite fill_optional_lookup.
  apply (gather_first_value _ _ _ _ k) in Hg. rewrite Hg. simpl.
  by rewrite lookup_empty.
Qed.

Lemma first_value_Some k (ds : list (gmap string pyval)) :
  is_Some (first_value k ds) <-> exists d, d ∈ ds /\ k ∈ dom d.
Proof.
  induction ds as [|d ds IH]; simpl.
  - split; [by intros [? [=]] |]. intros (d & Hd & _).
    by apply elem_of_nil in Hd.
  - destruct (d !! k) as [v|] eqn:Hk.
    + split.
      * intros _. exists d. split; [apply list_elem_of_here |].
        apply elem_of_dom. eauto.
      * intros _. destruct (is_None v); eauto.
    + rewrite IH. split.
      * intros (d' & Hd' & Hk'). exists d'. split; [by right | done].
      * intros (d' & [-> | Hd']%elem_of_cons & Hk'); [| eauto].
        apply elem_of_dom in Hk' as [? Hk']. congruence.
Qed.

(** X2.  The sample of a cycle has every valid field of the monitor, the
    mandatory and the optional ones, and beyond them exactly the keys that
    some collector returned: keys that no field set declares are kept. *)
Theorem sample_keys e m m' sample :
  collect e m = (m', Some sample) ->
  exists vf : gset string,
    valid_fields m' = Some vf /\
    vf ⊆ dom sample /\
    forall k, k ∈ dom sample <->
              k ∈ vf \/
              exists d, d ∈ fragments e (collectors m) /\ k ∈ dom d.
Proof.
  intros Hcollect.
  destruct (collect_frame e m) as (Hf & Ho & _).
  rewrite Hcollect in Hf, Ho. simpl in Hf, Ho.
  destruct (collect_sample _ _ _ _ Hcollect) as (data & Hg & Hsup & ->).
  assert (Hdom : forall k, k ∈ dom (fill_optional (optional m ∖ mandatory m)
                                      data) <->
                           k ∈ dom data \/ k ∈ optional m ∖ mandatory m).
  { intros k. rewrite !elem_of_dom, fill_optional_lookup.
    destruct (data !! k) as [v|].
    - split; [left | ]; eauto.
    - case_decide as Hk.
      + split; [by right | eauto].
      + split; [by intros [? [=]] |]. by intros [[? [=]] | ?]. }
  assert (Hfrag : forall k, k ∈ dom data <->
                    exists d, d ∈ fragments e (collectors m) /\ k ∈ dom d).
  { intros k. rewrite elem_of_dom.
    rewrite (gather_first_value _ _ _ _ k Hg). simpl.
    rewrite lookup_empty. apply first_value_Some. }
  exists (mandatory m ∪ (optional m ∖ mandatory m)).
  split; [unfold valid_fields; by rewrite Hf, Ho |]. split.
  - intros k [Hk | Hk]%elem_of_union; apply Hdom; [left; by apply Hsup | by right].
  - intros k. rewrite Hdom, <- Hfrag, elem_of_union. split.
    + intros [? | ?]; [by right | by left; right].
    + intros [[? | ?] | ?]; [left; by apply Hsup | by right | by left].
Qed.

(** *** Readiness and snapshots *)

Lemma collect_ready e m :
  ready (collect e m).1 =
    Some (match (collect e m).2 with Some _ => true | None => false end).
Proof.
  unfold collect. simpl.
  destruct (gather e (collectors m) ∅) as [data|msg]; [| done].
  by case_decide.
Qed.

Lemma collect_frame_data e m :
  properties (collect e m).1 = properties m /\
  variables (collect e m).1 = variables m.
Proof.
  unfold collect. simpl.
  destruct (gather e (collectors m) ∅) as [data|msg]; [| done].
  by case_decide.
Qed.

(** X3.  After a cycle, [interrogate] gives a snapshot exactly when the
    cycle returned a sample.  A cycle that returned nothing leaves the
    monitor not ready; a cycle that returned a sample leaves it ready, and
    the snapshot has the monitor's properties and variables and the
    history with that sample pushed. *)
Theorem interrogate_after_collect e m :
  let m1 := (collect e m).1 in
  ((collect e m).2 = None ->
   ready m1 = Some false /\ isReady m1 = false /\ interrogate m1 = None) /\
  (forall sample,
     (collect e m).2 = Some sample ->
     ready m1 = Some true /\ isReady m1 = true /\
     interrogate m1 =
       Some {| snap_properties := properties m;
               snap_variables := variables m;
               snap_statistics :=
                 push (sample_history_length (config m))
                      (statistics m) sample |}).
Proof.
  intros m1. unfold m1, interrogate, isReady.
  pose proof (collect_ready e m) as Hr.
  pose proof (collect_statistics e m) as Hst.
  destruct (collect_frame_data e m) as [Hp Hv].
  split.
  - intros Hnone. rewrite Hnone in Hr. by rewrite Hr.
  - intros sample Hs. rewrite Hs in Hr, Hst. rewrite Hr, Hp, Hv, Hst. done.
Qed.

(** *** Termination *)

Lemma gather_Fatal_inv e cs data msg :
  gather e cs data = Fatal msg ->
  exists c, c ∈ cs /\ Collector.collect c e = FatalError msg.
Proof.
  revert data. induction cs as [|c cs IH]; intros data; simpl; [done |].
  destruct (Collector.collect c e) as [[collected|]| |msg'|] eqn:Hc;
    try (intros (c' & Hin & Hc')%IH; exists c'; split;
         [by apply elem_of_cons; right | done]).
  intros [= ->]. exists c. split; [apply elem_of_cons; by left | done].
Qed.

Lemma collect_terminate e m :
  _terminate (collect e m).1 =
    match gather e (collectors m) ∅ with
    | Fatal _ => true
    | Data _ => _terminate m
    end.
Proof.
  unfold collect. simpl.
  destruct (gather e (collectors m) ∅) as [data|msg]; [| done].
  by case_decide.
Qed.

(** X4.  A cycle sets the termination flag exactly when a collector
    raises a fatal error; a [CollectionError], another exception or
    missing mandatory fields never set it, and no cycle clears it. *)
Theorem termination_flag e m :
  _terminate (collect e m).1 = true <->
  _terminate m = true \/
  exists c msg, c ∈ collectors m /\ Collector.collect c e = FatalError msg.
Proof.
  rewrite collect_terminate. split.
  - destruct (gather e (collectors m) ∅) as [data|msg] eqn:Hg; [by left |].
    intros _. right. apply gather_Fatal_inv in Hg as (c & ? & ?). eauto.
  - intros [Ht | Hfatal].
    + by destruct (gather e (collectors m) ∅).
    + destruct (gather_fatal e (collectors m) ∅ Hfatal) as [msg ->]. done.
Qed.

(** X5.  Once [terminate()] was called, [should_run] is false after any
    number of further cycles, whatever the collectors do and whatever the
    configuration says. *)
Theorem terminate_is_final (es : list env) m :
  _terminate (cycles es (terminate m)) = true /\
  should_run (cycles es (terminate m)) = false.
Proof.
  assert (Ht : _terminate (cycles es (terminate m)) = true).
  { induction es as [|e es IH] using rev_ind; [done |].
    rewrite cycles_snoc, collect_terminate, IH.
    by destruct (gather e _ ∅). }
  split; [done |]. unfold should_run. rewrite Ht. apply andb_false_r.
Qed.

(** *** Collectors that deliver nothing *)

Lemma merge_empty data : merge data ∅ = data.
Proof. unfold merge. apply map_fold_empty. Qed.

Lemma gather_silent e c cs data :
  silent (Collector.collect c e) ->
  gather e (c :: cs) data = gather e cs data.
Proof.
  intros [Hc | [Hc | [[msg Hc] | Hc]]]; simpl; rewrite Hc;
    by rewrite ?merge_empty.
Qed.

(** X6.  A collector whose [collect()] returns [None] or an empty
    dictionary, or raises [CollectionError] or an unexpected exception,
    changes nothing in the cycle: the accumulator is the one of the other
    collectors, and the cycle still returns its sample when these cover the
    mandatory fields. *)
Theorem silent_collector e m pre c post :
  collectors m = pre ++ c :: post ->
  silent (Collector.collect c e) ->
  gather e (collectors m) ∅ = gather e (pre ++ post) ∅ /\
  forall data,
    gather e (pre ++ post) ∅ = Data data ->
    mandatory m ⊆ dom data ->
    (collect e m).2 =
      Some (fill_optional (optional m ∖ mandatory m) data).
Proof.
  intros Hcs Hc.
  assert (Hg : gather e (collectors m) ∅ = gather e (pre ++ post) ∅).
  { rewrite Hcs, !gather_app.
    destruct (gather e pre ∅) as [data|msg]; [| done].
    by apply gather_silent. }
  split; [done |]. intros data Hdata Hsup.
  unfold collect. simpl. rewrite Hg, Hdata.
  by rewrite decide_True by done.
Qed.

Lemma gather_not_fatal e cs data :
  Forall (fun c => not_fatal (Collector.collect c e)) cs ->
  exists data', gather e cs data = Data data'.
Proof.
  revert data. induction cs as [|c cs IH]; intros data Hall; simpl;
    [by eauto |].
  apply Forall_cons in Hall as [Hc Hall].
  destruct (Collector.collect c e) as [[collected|]| |msg|]; auto.
  by destruct (Hc msg).
Qed.

(** X7.  A monitor without mandatory fields, in particular one without
    collectors, returns a sample and is ready after every cycle in which
    no collector raises a fatal error, even if every collector fails. *)
Theorem no_mandatory_fields e m :
  mandatory m = ∅ ->
  Forall (fun c => not_fatal (Collector.collect c e)) (collectors m) ->
  exists sample,
    (collect e m).2 = Some sample /\
    isReady (collect e m).1 = true /\
    forall k, k ∈ optional m -> is_Some (sample !! k).
Proof.
  intros Hm Hall.
  destruct (gather_not_fatal e (collectors m) ∅ Hall) as [data Hg].
  assert (Hsup : mandatory m ⊆ dom data) by (rewrite Hm; set_solver).
  destruct (complete_cycle e m data Hg Hsup) as (sample & Hs & Hr & _).
  exists sample. split; [done |]. split; [unfold isReady; by rewrite Hr |].
  intros k Hk.
  assert (Hco : collect e m = ((collect e m).1, Some sample))
    by (rewrite <- Hs; by destruct (collect e m)).
  apply collect_sample in Hco as (data' & _ & _ & ->).
  rewrite fill_optional_lookup. destruct (data' !! k); [done |].
  rewrite decide_True; [done |]. rewrite Hm. set_solver.
Qed.

(** *** Variables *)

Lemma fold_insert_union (vars old : gmap string pyval) :
  map_fold (fun var val acc => <[var:=val]> acc) old vars = vars ∪ old.
Proof.
  refine (map_fold_weak_ind
            (fun r (mm : gmap string pyval) => r = mm ∪ old)
            _ _ _ _ vars).
  - by rewrite (left_id_L ∅ (∪)).
  - intros i x mm r _ ->. by rewrite insert_union_l.
Qed.

Lemma update_variables_union (vars : gmap string pyval) m :
  variables (update_variables vars m) = vars ∪ variables m.
Proof. apply fold_insert_union. Qed.

(** X8.  [update_variables] is last writer wins for each key: a variable
    given in the update gets the new value, every other variable keeps
    its value, nothing else of the monitor changes, and two updates in a
    row are one update with the second taking precedence. *)
Theorem update_variables_last_writer (vars vars2 : gmap string pyval) m :
  (forall k, variables (update_variables vars m) !! k =
             match vars !! k with
             | Some v => Some v
             | None => variables m !! k
             end) /\
  statistics (update_variables vars m) = statistics m /\
  ready (update_variables vars m) = ready m /\
  interrogate (update_variables vars m) =
    (fun s => {| snap_properties := snap_properties s;
                 snap_variables := vars ∪ snap_variables s;
                 snap_statistics := snap_statistics s |})
      <$> interrogate m /\
  update_variables vars2 (update_variables vars m) =
    update_variables (vars2 ∪ vars) m.
Proof.
  split; [| split; [done | split; [done | split]]].
  - intros k. rewrite update_variables_union, lookup_union.
    destruct (vars !! k), (variables m !! k); done.
  - unfold interrogate. change (ready (update_variables vars m))
      with (ready m).
    destruct (ready m) as [[|]|]; [| done | done]. simpl.
    pose proof (update_variables_union vars m) as Hu. simpl in Hu.
    by rewrite Hu.
  - destruct m. unfold update_variables. simpl. f_equal.
    rewrite !fold_insert_union. by rewrite (assoc_L (∪)).
Qed.

(** *** What a run of cycles leaves alone *)

(** X9.  Cycles never change the configuration, the properties, the
    variables or the collectors of a monitor, and the field sets computed
    in the first cycle stay the same in all later ones. *)
Theorem cycles_frame (es : list env) m :
  let m' := cycles es m in
  config m' = config m /\ properties m' = properties m /\
  variables m' = variables m /\ collectors m' = collectors m /\
  (es <> [] ->
   fields m' = Some (mandatory m) /\
   optional_fields m' = Some (optional m ∖ mandatory m)).
Proof.
  induction es as [|e es IH] using rev_ind; [done |].
  rewrite cycles_snoc. simpl in *.
  destruct IH as (Hcfg & Hp & Hv & Hcs & Hfs).
  set (m0 := cycles es m) in *.
  destruct (collect_frame e m0) as (Hf & Ho & Hc & Hg).
  destruct (collect_frame_data e m0) as (Hp' & Hv').
  rewrite Hg, Hp', Hv', Hc, Hf, Ho.
  do 4 (split; [done |]). intros _.
  destruct es as [|e0 es'].
  - by subst m0.
  - destruct Hfs as [Hf0 Ho0]; [done |].
    assert (Hm : mandatory m0 = mandatory m)
      by (unfold mandatory at 1; by rewrite Hf0).
    assert (Hopt : optional m0 = optional m ∖ mandatory m)
      by (unfold optional at 1; by rewrite Ho0).
    rewrite Hm, Hopt. split; [done |]. f_equal. set_solver.
Qed.

(** *** A history that is already full *)

Lemma push_length_full (n : Z) (st : list (gmap string pyval)) sample :
  (n <= Z.of_nat (length st))%Z -> length (push n st sample) = length st.
Proof.
  intros Hn. unfold push. rewrite length_app. simpl.
  destruct (Z.gtb_spec (Z.of_nat (length st + 1)) n); [| lia].
  destruct st; simpl; [done |]. rewrite length_app. simpl. lia.
Qed.

(** X10.  Each cycle removes at most one entry: a history that holds at
    least as many samples as the configured length (more, when the
    length was lowered) keeps its number of samples through every run of
    cycles; it does not shrink to the configured length. *)
Theorem full_history_keeps_length (es : list env) m :
  (sample_history_length (config m) <= Z.of_nat (length (statistics m)))%Z ->
  length (statistics (cycles es m)) = length (statistics m).
Proof.
  intros Hn. induction es as [|e es IH] using rev_ind; [done |].
  rewrite cycles_snoc, collect_statistics.
  destruct (cycles_frame es m) as (Hcfg & _).
  destruct ((collect e (cycles es m)).2) as [sample|]; [| done].
  rewrite push_length_full; [done |]. rewrite Hcfg, IH. done.
Qed.

(** *** The log *)

Lemma gather_log_levels e m position cs (r : level * message) :
  r ∈ gather_log e m position cs ->
  match r.2 with
  | Collection_error _ =>
      r.1 = (match ready m with Some false => DEBUG | _ => WARNING end)
  | Unexpected_collection_error => r.1 = ERROR
  | No_data _ | Fatal_collector_error _ => r.1 = DEBUG
  | _ => False
  end.
Proof.
  revert position. induction cs as [|c cs IH]; intros position; simpl.
  - by intros ?%elem_of_nil.
  - destruct (Collector.collect c e) as [[collected|]|msg|msg|].
    + apply IH.
    + intros [-> | Hr]%elem_of_cons; [done | by eapply IH].
    + intros [Hr | Hr]%elem_of_app; [| by eapply IH].
      destruct (ready m) as [[|]|];
        apply list_elem_of_singleton in Hr as ->; done.
    + unfold _set_not_ready_log. simpl.
      intros ->%list_elem_of_singleton. done.
    + intros [-> | Hr]%elem_of_cons; [done | by eapply IH].
Qed.

(** X19.  What [_set_not_ready] logs is always a debug record, since it
    sets [ready] to [False] before the level is chosen: a fatal collector
    error and incomplete data are never logged as a warning.  The only
    warnings of a cycle are the [CollectionError]s of a monitor that was
    ready or had not run yet; while a monitor stays not ready, its cycles
    log no warning at all. *)
Theorem warnings_of_a_cycle e m (r : level * message) :
  r ∈ collect_log e m ->
  (r.1 = WARNING ->
   (exists msg, r.2 = Collection_error msg) /\ ready m <> Some false) /\
  ((exists msg, r.2 = Fatal_collector_error msg) -> r.1 = DEBUG) /\
  ((exists missing, r.2 = Incomplete_data missing) -> r.1 = DEBUG).
Proof.
  unfold collect_log. rewrite !elem_of_app.
  intros [Hr | [Hr | [Hr | Hr]]].
  - destruct (fields m); [by apply elem_of_nil in Hr |].
    apply list_elem_of_singleton in Hr as ->. simpl.
    split; [done |]. by split; intros [? [=]].
  - destruct (optional_fields m); [by apply elem_of_nil in Hr |].
    apply list_elem_of_singleton in Hr as ->. simpl.
    split; [done |]. by split; intros [? [=]].
  - apply gather_log_levels in Hr. destruct r as [l msg]. simpl in *.
    destruct msg; try done; subst l.
    + split; [done |]. by split; intros [? [=]].
    + split; [| by split; intros [? [=]]].
      destruct (ready m) as [[|]|]; try done; eauto.
    + split; [done |]. by split; intros [? [=]].
    + split; [done |]. by split; intros [? [=]].
  - destruct (gather e (collectors m) ∅) as [data|msg];
      [| by apply elem_of_nil in Hr].
    case_decide.
    + unfold _set_ready_log in Hr.
      destruct (ready m) as [[|]|]; try (by apply elem_of_nil in Hr);
        apply list_elem_of_singleton in Hr as ->; simpl;
        (split; [done |]; by split; intros [? [=]]).
    + unfold _set_not_ready_log in Hr. simpl in Hr.
      apply list_elem_of_singleton in Hr as ->. simpl.
      split; [done |]. by split.
Qed.

Lemma gather_log_not_ready e m position cs :
  (INFO, Is_ready) ∉ gather_log e m position cs.
Proof. by intros ?%gather_log_levels. Qed.

(** X20.  The info record that the monitor is ready is logged exactly by
    the cycles that return a sample while [ready] was not [True] before:
    once when the monitor becomes ready, and not again while it stays
    ready. *)
Theorem ready_is_logged_once e m :
  (INFO, Is_ready) ∈ collect_log e m <->
  (collect e m).2 <> None /\ ready m <> Some true.
Proof.
  unfold collect_log, collect. simpl. rewrite !elem_of_app.
  split.
  - intros [Hr | [Hr | [Hr | Hr]]].
    + destruct (fields m); [by apply elem_of_nil in Hr |].
      by apply list_elem_of_singleton in Hr.
    + destruct (optional_fields m); [by apply elem_of_nil in Hr |].
      by apply list_elem_of_singleton in Hr.
    + by apply gather_log_not_ready in Hr.
    + destruct (gather e (collectors m) ∅) as [data|msg];
        [| by apply elem_of_nil in Hr].
      case_decide.
      * unfold _set_ready_log in Hr.
        destruct (ready m) as [[|]|]; [by apply elem_of_nil in Hr | |];
          by split.
      * unfold _set_not_ready_log in Hr. simpl in Hr.
        by apply list_elem_of_singleton in Hr.
  - intros [Hret Hready]. do 3 right.
    destruct (gather e (collectors m) ∅) as [data|msg]; [| done].
    case_decide; [| done]. unfold _set_ready_log.
    destruct (ready m) as [[|]|]; [done | |]; apply list_elem_of_here.
Qed.

End more.

(** [A_null] returns a null for [x], [B] returns 9: the sample has 9 for
    [x] and a null for the optional [y] that nobody returned. *)
Lemma sample_value_A_null_B :
  let m := init Examples.cfg ∅ [Examples.A_null; Examples.B] in
  first_value "x" (fragments () (collectors m)) = Some (PInt 9) /\
  first_value "y" (fragments () (collectors m)) = None /\
  exists sample,
    (collect () m).2 = Some sample /\
    sample !! "x" = Some (PInt 9) /\ sample !! "y" = Some PNone.
Proof.
  intros m. split; [by vm_compute |]. split; [by vm_compute |].
  destruct (collect () m) as [m' [sample|]] eqn:Hm;
    [| by vm_compute in Hm].
  exists sample. split; [reflexivity |].
  rewrite (sample_value () m m' sample "x" Hm).
  rewrite (sample_value () m m' sample "y" Hm).
  split; by vm_compute.
Defined.

(** [chatty] returns [extra], which no field set declares: the sample has
    it all the same. *)
Lemma sample_keys_chatty :
  let m := init Examples.cfg ∅ [Examples.chatty; Examples.quiet] in
  let sample : gmap string pyval :=
    {["x" := PInt 5; "extra" := PInt 7; "y" := PNone]} in
  (collect () m).2 = Some sample /\
  exists vf : gset string,
    valid_fields (collect () m).1 = Some vf /\ vf ⊆ dom sample.
Proof.
  intros m sample.
  assert (Hs : (collect () m).2 = Some sample) by (by vm_compute).
  split; [exact Hs |].
  destruct (collect () m) as [m' r] eqn:Hm. simpl in Hs. subst r.
  destruct (sample_keys () m m' sample Hm) as (vf & Hvf & Hsub & _).
  exists vf. split; [exact Hvf | exact Hsub].
Defined.

(** [quiet] raises [CollectionError] in every cycle; with [A] before it
    the cycle returns [A]'s data. *)
Lemma silent_collector_quiet :
  let m := init Examples.cfg ∅ [Examples.A; Examples.quiet] in
  silent (Collector.collect Examples.quiet ()) /\
  gather () [Examples.A] ∅ = Data {["x" := PInt 5]} /\
  (collect () m).2 = Some {["x" := PInt 5; "y" := PNone]}.
Proof.
  intros m.
  assert (Hq : silent (Collector.collect Examples.quiet ())).
  { right. right. left. by exists "no data". }
  destruct (silent_collector () m [Examples.A] Examples.quiet [] eq_refl Hq)
    as [_ Hall].
  assert (Hg : gather () ([Examples.A] ++ []) ∅ = Data {["x" := PInt 5]})
    by (by vm_compute).
  assert (Hsup : mandatory m ⊆ dom ({["x" := PInt 5]} : gmap string pyval)).
  { apply (bool_decide_eq_true_1
             (mandatory m ⊆ dom ({["x" := PInt 5]} : gmap string pyval))).
    by vm_compute. }
  split; [exact Hq |]. split; [exact Hg |].
  rewrite (Hall _ Hg Hsup). by vm_compute.
Defined.

(** A monitor without collectors records an empty sample. *)
Lemma no_mandatory_fields_no_collectors :
  let m := init Examples.cfg ∅ ([] : list (Collector ())) in
  mandatory m = ∅ /\
  (collect () m).2 = Some ∅ /\
  isReady (collect () m).1 = true.
Proof.
  intros m.
  assert (Hm : mandatory m = ∅) by done.
  assert (Hall : Forall (fun c => not_fatal (Collector.collect c ()))
                        (collectors m)) by apply Forall_nil_2.
  destruct (no_mandatory_fields () m Hm Hall) as (sample & _ & Hr & _).
  split; [exact Hm |]. split; [by vm_compute | exact Hr].
Defined.

(** [flaky] has no data twice: a warning in the first cycle, when the
    monitor had not run yet, and debug records only in the second. *)
Lemma warnings_of_a_cycle_flaky :
  let m := init Examples.cfg ∅ [Examples.flaky] in
  collect_log false m =
    [(DEBUG, Using_fields {["x"]}); (DEBUG, Using_optional_fields ∅);
     (WARNING, Collection_error "no data");
     (DEBUG, Incomplete_data {["x"]})] /\
  collect_log false (collect false m).1 =
    [(DEBUG, Collection_error "no data");
     (DEBUG, Incomplete_data {["x"]})] /\
  ready m <> Some false.
Proof.
  intros m.
  assert (Hlog : collect_log false m =
            [(DEBUG, Using_fields {["x"]}); (DEBUG, Using_optional_fields ∅);
             (WARNING, Collection_error "no data");
             (DEBUG, Incomplete_data {["x"]})]) by (by vm_compute).
  split; [exact Hlog |]. split; [by vm_compute |].
  assert (Hin : (WARNING, Collection_error "no data") ∈ collect_log false m).
  { rewrite Hlog. do 2 apply list_elem_of_further. apply list_elem_of_here. }
  destruct (warnings_of_a_cycle false m _ Hin) as [Hw _].
  by destruct (Hw eq_refl).
Defined.

(** Three samples with a configured length of two: still three after two
    more cycles. *)
Lemma full_history_keeps_length_overfull :
  (sample_history_length (config Examples.overfull)
   <= Z.of_nat (length (statistics Examples.overfull)))%Z /\
  sample_history_length (config Examples.overfull) = 2%Z /\
  length (produced [(); ()] Examples.overfull) = 2 /\
  length (statistics (cycles [(); ()] Examples.overfull)) = 3.
Proof.
  assert (Hn : (sample_history_length (config Examples.overfull)
                <= Z.of_nat (length (statistics Examples.overfull)))%Z)
    by (simpl; lia).
  split; [exact Hn |]. split; [reflexivity |]. split; [by vm_compute |].
  exact (full_history_keeps_length [(); ()] Examples.overfull Hn).
Defined.

End MonitorMore.

(** * More about the collector resolver *)

Module CollectorMore.
Import Collector CollectorFacts.

Section more.
Context {env : Type}.
Variable create : string -> gmap string propval -> created env.
Variable global_config : GlobalConfig.
Implicit Types (names pre post : list string) (name : string).
Implicit Types (properties : gmap string propval).
Implicit Types (collectors : list (Collector env)).

(** *** What a returned list is *)

Lemma resolve_properties names properties collectors properties' cs :
  Forall stripped names ->
  resolve create global_config names properties collectors
    = (properties', Return (Some cs)) ->
  properties' =
    foldl (fun p n => with_section global_config n p) properties names.
Proof.
  revert properties collectors.
  induction names as [|n names IH]; intros properties collectors Hok.
  - simpl. by intros [= <- _].
  - apply Forall_cons in Hok as [[Hstrip Hne] Hok]. simpl.
    rewrite Hstrip, decide_False by done.
    destruct (create n (with_section global_config n properties));
      try done.
    by apply IH.
Qed.

(** X11.  When [get_collectors] returns a list, [properties] had no
    ['config'] entry, the list holds exactly one instance for each
    configured name, in the order of the names, and the caller's
    [properties] have gone through the section of every name. *)
Theorem returned_list_is_complete (config_str : string)
    properties properties' cs :
  get_collectors create global_config config_str properties
    = (properties', Return (Some cs)) ->
  properties !! "config" = None /\
  Forall2 (fun n c => exists p, create n p = Instance c)
          (names_of config_str) cs /\
  properties' =
    foldl (fun p n => with_section global_config n p) properties
          (names_of config_str).
Proof.
  unfold get_collectors.
  destruct (decide (is_Some (properties !! "config"))) as [? | Hno];
    [done |].
  rewrite resolve_filter. fold (names_of config_str). intros Hres.
  pose proof (names_of_stripped config_str) as Hok.
  split; [by apply eq_None_not_Some |]. split.
  - apply resolve_complete in Hres as (cs' & -> & Hall); done.
  - by eapply resolve_properties.
Qed.

(** X12.  A configuration string without a name (empty, or only commas
    and white space) is no error of its own: when [properties] have no
    ['config'] entry the result is the empty list, not [None]; with such
    an entry it is [None], as for every string; [properties] are not
    touched either way. *)
Theorem no_names_empty_list (config_str : string) properties :
  names_of config_str = [] ->
  get_collectors create global_config config_str properties
    = (properties,
       Return (match properties !! "config" with
               | Some _ => None
               | None => Some []
               end)).
Proof.
  intros Hnames. unfold get_collectors.
  destruct (properties !! "config") as [cfg|] eqn:Hcfg.
  - by rewrite decide_True by eauto.
  - rewrite decide_False by (by intros [? [=]]).
    rewrite resolve_filter. fold (names_of config_str). by rewrite Hnames.
Qed.

(** *** The caller's properties *)

Lemma with_section_keeps name properties :
  is_Some (properties !! "config") ->
  is_Some (with_section global_config name properties !! "config").
Proof.
  intros Hp. unfold with_section.
  destruct (has_section global_config _); [| done].
  rewrite lookup_insert_eq. eauto.
Qed.

Lemma sections_leave_config names name properties :
  name ∈ names ->
  has_section global_config (String.append "Collector: " name) = true ->
  is_Some (foldl (fun p n => with_section global_config n p)
                 properties names !! "config").
Proof.
  intros Hin Hsec. induction names as [|n names IH] using rev_ind.
  - by apply elem_of_nil in Hin.
  - rewrite foldl_snoc.
    apply elem_of_app in Hin as [Hin | ->%list_elem_of_singleton].
    + apply with_section_keeps. by apply IH.
    + unfold with_section. rewrite Hsec, lookup_insert_eq. eauto.
Qed.

(** X13.  [get_collectors] writes into the dictionary it is given: after
    a call that returned a list for names of which one has a section in
    the global configuration, the caller's [properties] hold a ['config']
    entry, and every further call with these [properties] returns [None],
    whatever names it is given. *)
Theorem config_is_left_behind (config_str : string)
    properties properties' cs name :
  get_collectors create global_config config_str properties
    = (properties', Return (Some cs)) ->
  name ∈ names_of config_str ->
  has_section global_config (String.append "Collector: " name) = true ->
  is_Some (properties' !! "config") /\
  forall config_str' : string,
    get_collectors create global_config config_str' properties'
      = (properties', Return None).
Proof.
  unfold get_collectors at 1.
  destruct (decide (is_Some (properties !! "config"))); [done |].
  rewrite resolve_filter. fold (names_of config_str).
  intros ->%resolve_properties Hin Hsec; [| apply names_of_stripped].
  pose proof (sections_leave_config _ _ properties Hin Hsec) as Hcfg.
  split; [done |]. intros config_str'. unfold get_collectors.
  by rewrite decide_True.
Qed.

(** *** Writing and reading a list of names *)

Lemma split_nonempty (sep : ascii) (s : string) : split sep s <> [].
Proof.
  destruct s as [|c s]; simpl; [done |].
  destruct (decide (c = sep)); [done |]. by destruct (split sep s).
Qed.

Lemma split_no_sep (sep : ascii) (x : string) :
  ~ In sep (String.list_ascii_of_string x) -> split sep x = [x].
Proof.
  induction x as [|c x IH]; simpl; [done |]. intros Hno.
  rewrite decide_False by (intros ->; apply Hno; by left).
  rewrite IH; [done |]. intros Hin. apply Hno. by right.
Qed.

Lemma split_app_sep (sep : ascii) (x rest : string) :
  ~ In sep (String.list_ascii_of_string x) ->
  split sep (String.append x (String sep rest)) = x :: split sep rest.
Proof.
  induction x as [|c x IH]; simpl; intros Hno.
  - by rewrite decide_True.
  - rewrite decide_False by (intros ->; apply Hno; by left).
    rewrite IH; [done |]. intros Hin. apply Hno. by right.
Qed.

(** White space in front of a piece is stripped away. *)
Lemma strip_pieces (sep c : ascii) (s : string) :
  is_whitespace c = true -> c <> sep ->
  lstrip <$> split sep (String c s) = lstrip <$> split sep s.
Proof.
  intros Hc Hne. simpl. rewrite decide_False by done.
  pose proof (split_nonempty sep s) as Hs.
  destruct (split sep s) as [|h t]; [done |]. simpl. by rewrite Hc.
Qed.

Lemma pieces_concat (ns : list string) :
  ns <> [] -> Forall plain ns ->
  lstrip <$> split ","%char (String.concat ", " ns) = ns.
Proof.
  induction ns as [|x ns IH]; [done |]. intros _ Hall.
  apply Forall_cons in Hall as [[[Hstrip _] Hcomma] Hall].
  destruct ns as [|y ns].
  - simpl. rewrite split_no_sep by done. simpl. by rewrite Hstrip.
  - change (String.concat ", " (x :: y :: ns))
      with (String.append x
              (String ","%char
                 (String " "%char (String.concat ", " (y :: ns))))).
    rewrite split_app_sep by done. rewrite fmap_cons, Hstrip.
    rewrite strip_pieces by done. by rewrite IH.
Qed.

(** X14.  Writing names with [", "] between them and reading them back
    gives the same names: for names that are not empty, have no comma and
    no white space in front, [get_collectors] on the joined string does
    what its loop does on the names themselves, after the guard for a
    ['config'] entry in [properties]. *)
Theorem names_round_trip (ns : list string) properties :
  Forall plain ns ->
  names_of (String.concat ", " ns) = ns /\
  get_collectors create global_config (String.concat ", " ns) properties
    = match properties !! "config" with
      | Some _ => (properties, Return None)
      | None => resolve create global_config ns properties []
      end.
Proof.
  intros Hall.
  assert (Hnames : names_of (String.concat ", " ns) = ns).
  { unfold names_of. destruct ns as [|x ns]; [done |].
    rewrite pieces_concat by done.
    clear -Hall. induction Hall as [|n l [[_ Hne] _] _ IH]; [done |].
    rewrite filter_cons, decide_True by done. by rewrite IH. }
  split; [done |]. unfold get_collectors.
  destruct (properties !! "config") as [cfg|] eqn:Hcfg.
  - by rewrite decide_True by eauto.
  - rewrite decide_False by (by intros [? [=]]).
    rewrite resolve_filter. fold (names_of (String.concat ", " ns)).
    by rewrite Hnames.
Qed.

End more.

(** Two collectors [A]: the list has both. *)
Lemma returned_list_is_complete_AA :
  let r := get_collectors Examples.plugins Examples.no_sections "A, A" ∅ in
  r = (∅, Return (Some [Examples.A; Examples.A])) /\
  Forall2 (fun n c => exists p, Examples.plugins n p = Instance c)
          (names_of "A, A") [Examples.A; Examples.A].
Proof.
  intros r.
  assert (Hr : r = (∅, Return (Some [Examples.A; Examples.A])))
    by (by vm_compute).
  split; [exact Hr |].
  destruct (returned_list_is_complete Examples.plugins Examples.no_sections
              "A, A" ∅ ∅ [Examples.A; Examples.A] Hr) as (_ & Hall & _).
  exact Hall.
Defined.

(** Commas and blanks only: the empty list, and [None] when the
    dictionary has a ['config'] entry. *)
Lemma no_names_empty_list_blank :
  names_of " , ,, " = [] /\
  get_collectors Examples.plugins Examples.no_sections " , ,, " ∅
    = (∅, Return (Some [])) /\
  get_collectors Examples.plugins Examples.no_sections " , ,, "
      {["config" := PropConfig ∅]}
    = ({["config" := PropConfig ∅]}, Return None).
Proof.
  assert (Hnames : names_of " , ,, " = []) by (by vm_compute).
  split; [exact Hnames |]. split.
  - exact (no_names_empty_list Examples.plugins Examples.no_sections
             " , ,, " ∅ Hnames).
  - exact (no_names_empty_list Examples.plugins Examples.no_sections
             " , ,, " {["config" := PropConfig ∅]} Hnames).
Defined.

(** [A] has a section: the first call returns [A], the second call with
    the same dictionary returns [None]. *)
Lemma config_is_left_behind_A :
  let r := get_collectors Examples.plugins Examples.section_for_A "A" ∅ in
  r.2 = Return (Some [Examples.A]) /\
  r.1 !! "config" = Some (PropConfig {["interval" := "5"]}) /\
  get_collectors Examples.plugins Examples.section_for_A "A" r.1
    = (r.1, Return None).
Proof.
  intros r.
  assert (Hr : r = (r.1, Return (Some [Examples.A]))) by (by vm_compute).
  assert (Hin : "A" ∈ names_of "A") by (vm_compute; apply list_elem_of_here).
  destruct (config_is_left_behind Examples.plugins Examples.section_for_A
              "A" ∅ r.1 [Examples.A] "A" Hr Hin eq_refl) as [_ Hagain].
  split; [by vm_compute |]. split; [by vm_compute |].
  exact (Hagain "A").
Defined.

(** The names [A] and [Broken], joined and read back; a name behind a
    no-break space is not one of those the statement is about, and the
    loop strips it. *)
Lemma names_round_trip_A_Broken :
  Forall plain ["A"; "Broken"] /\
  String.concat ", " ["A"; "Broken"] = "A, Broken" /\
  names_of "A, Broken" = ["A"; "Broken"] /\
  names_of (String (ascii_of_nat 160) "A") = ["A"].
Proof.
  assert (Hall : Forall plain ["A"; "Broken"]).
  { repeat apply List.Forall_cons; try apply List.Forall_nil;
      (split; [by split |]); simpl; intros Hin;
      repeat (destruct Hin as [Hin | Hin]; [discriminate |]); done. }
  destruct (names_round_trip Examples.plugins Examples.no_sections
              ["A"; "Broken"] ∅ Hall) as [Hnames _].
  split; [exact Hall |]. split; [reflexivity |].
  split; [exact Hnames | by vm_compute].
Defined.

End CollectorMore.

(** * More about the KSM controller *)

Module KSMMore.
Import KSM KSMFacts.

Section more.
Variable int_of_str : string -> option Z.
Context {HV : Type}.
Variable ksmTune : list (string * Z) -> HV -> HV * option exn.
Implicit Types (host : Host) (guests : list Host) (hv : HV).
Implicit Types (key : string) (ks : list string) (z : Z).
Implicit Types (outputs : list (string * Z)) (tr : list event).

(** *** The whole effect of a cycle *)

Lemma scan_exact host ks outputs tr :
  Forall (fun key =>
            is_None (GetControl host (String.append "ksm_" key)) = false ->
            exists z,
              int int_of_str (GetControl host (String.append "ksm_" key))
                = inl z) ks ->
  NoDup ks ->
  (forall key, key ∈ ks -> key ∉ outputs.*1) ->
  scan int_of_str host ks outputs tr =
    (tr ++ (debug_record host <$> omap (changed int_of_str host) ks),
     inl (outputs ++ omap (changed int_of_str host) ks)).
Proof.
  revert outputs tr.
  induction ks as [|key ks IH]; intros outputs tr Hco Hnd Hfresh.
  - simpl. by rewrite !app_nil_r.
  - apply Forall_cons in Hco as [Hkey Hco].
    apply NoDup_cons in Hnd as [Hnotin Hnd].
    simpl. unfold changed.
    destruct (is_None (GetControl host (String.append "ksm_" key))) eqn:Hn.
    + apply IH; [done | done |].
      intros k Hk. apply Hfresh. by right.
    + destruct (Hkey eq_refl) as [z Hz]. rewrite Hz.
      destruct (int_ne z _) eqn:Hne.
      * rewrite setitem_fresh by (apply Hfresh; by left).
        rewrite IH; [| done | done |].
        { simpl. by rewrite <- !app_assoc. }
        intros k Hk. rewrite fmap_app. simpl.
        intros [Hin | Hin%list_elem_of_singleton]%elem_of_app.
        -- revert Hin. apply Hfresh. by right.
        -- by subst.
      * apply IH; [done | done |].
        intros k Hk. apply Hfresh. by right.
Qed.

Lemma changed_sublist host ks :
  (omap (changed int_of_str host) ks).*1 `sublist_of` ks.
Proof.
  induction ks as [|key ks IH]; simpl; [done |].
  destruct (changed int_of_str host key) as [kv|] eqn:Hch.
  - simpl. apply changed_key in Hch as ->. by apply sublist_skip.
  - by apply sublist_cons.
Qed.

(** X15.  What a cycle does when the desired values can be coerced: the
    batch holds the knobs that differ, in the order of [self.keys]; with
    an empty batch nothing happens at all, no log record, no call, no
    exception; otherwise the log gets one debug record for each knob of
    the batch and one info record, [ksmTune] is called once, and its
    exception, if it raises one, leaves [process] as it is, since nothing
    catches it there. *)
Theorem process_result host guests hv :
  coercible int_of_str host ->
  exists outputs,
    (forall key z, (key, z) ∈ outputs <-> differs int_of_str host key z) /\
    outputs.*1 `sublist_of` keys /\
    process int_of_str ksmTune host guests hv =
      match outputs with
      | [] => (hv, [], None)
      | _ => ((ksmTune outputs hv).1,
              (debug_record host <$> outputs)
                ++ [Info_updating outputs; Call_ksmTune outputs],
              (ksmTune outputs hv).2)
      end.
Proof.
  intros Hco. exists (omap (changed int_of_str host) keys).
  split; [apply elem_of_changed |]. split; [apply changed_sublist |].
  unfold process. rewrite (scan_exact host keys [] [] Hco keys_NoDup).
  2:{ intros key _. apply not_elem_of_nil. }
  cbn [app].
  destruct (omap (changed int_of_str host) keys) as [|kv outputs]; [done |].
  cbn [length Nat.ltb Nat.leb].
  by destruct (ksmTune (kv :: outputs) hv).
Qed.

(** *** Directives that are no numbers *)

(** The loop stops at the first knob whose present desired value [int()]
    cannot coerce, with the exception that [int()] raises there. *)
Lemma scan_raises host ks outputs tr key e :
  key ∈ ks ->
  is_None (GetControl host (String.append "ksm_" key)) = false ->
  int int_of_str (GetControl host (String.append "ksm_" key)) = inr e ->
  exists pre key' post e',
    ks = pre ++ key' :: post /\
    Forall (fun k =>
              is_None (GetControl host (String.append "ksm_" k)) = false ->
              exists z,
                int int_of_str (GetControl host (String.append "ksm_" k))
                  = inl z) pre /\
    is_None (GetControl host (String.append "ksm_" key')) = false /\
    int int_of_str (GetControl host (String.append "ksm_" key')) = inr e' /\
    (scan int_of_str host ks outputs tr).2 = inr e'.
Proof.
  intros Hin Hn He. revert outputs tr.
  induction ks as [|k ks IH]; intros outputs tr;
    [by apply elem_of_nil in Hin |].
  simpl.
  destruct (is_None (GetControl host (String.append "ksm_" k))) eqn:Hk.
  - apply elem_of_cons in Hin as [-> | Hin]; [congruence |].
    destruct (IH Hin outputs tr)
      as (pre & key' & post & e' & -> & Hpre & Hn' & He' & Hscan).
    exists (k :: pre), key', post, e'.
    split; [done |]. split; [| done].
    apply Forall_cons. split; [| done]. intros Hk'. congruence.
  - destruct (int int_of_str (GetControl host (String.append "ksm_" k)))
      as [z | e'] eqn:Hint.
    + apply elem_of_cons in Hin as [-> | Hin]; [congruence |].
      assert (Hrest : forall outputs tr,
                exists pre key' post e',
                  k :: ks = pre ++ key' :: post /\
                  Forall (fun k =>
                     is_None (GetControl host (String.append "ksm_" k))
                       = false ->
                     exists z,
                       int int_of_str
                         (GetControl host (String.append "ksm_" k))
                         = inl z) pre /\
                  is_None (GetControl host (String.append "ksm_" key'))
                    = false /\
                  int int_of_str
                    (GetControl host (String.append "ksm_" key')) = inr e' /\
                  (scan int_of_str host ks outputs tr).2 = inr e').
      { intros outputs' tr'.
        destruct (IH Hin outputs' tr')
          as (pre & key' & post & e'' & -> & Hpre & Hn' & He' & Hscan).
        exists (k :: pre), key', post, e''.
        split; [done |]. split; [| done].
        apply Forall_cons. split; [| done]. intros _. eauto. }
      destruct (int_ne z _); apply Hrest.
    + exists [], k, ks, e'. simpl. by repeat split.
Qed.

(** X16.  When the desired value of some knob is present and [int()]
    cannot coerce it, [process] raises what [int()] raises for the first
    such knob in the order of [self.keys], and the hypervisor is not
    called in this cycle, also not for the knobs that did change. *)
Theorem bad_directive_raises host guests hv key e :
  key ∈ keys ->
  is_None (GetControl host (String.append "ksm_" key)) = false ->
  int int_of_str (GetControl host (String.append "ksm_" key)) = inr e ->
  let run := process int_of_str ksmTune host guests hv in
  (exists pre key' post e',
     keys = pre ++ key' :: post /\
     Forall (fun k =>
               is_None (GetControl host (String.append "ksm_" k)) = false ->
               exists z,
                 int int_of_str (GetControl host (String.append "ksm_" k))
                   = inl z) pre /\
     is_None (GetControl host (String.append "ksm_" key')) = false /\
     int int_of_str (GetControl host (String.append "ksm_" key')) = inr e' /\
     run.2 = Some e') /\
  calls run.1.2 = [] /\ run.1.1 = hv.
Proof.
  intros Hin Hn He run. unfold run, process.
  destruct (scan_raises host keys [] [] key e Hin Hn He)
    as (pre & key' & post & e' & Hkeys & Hpre & Hn' & He' & Hscan).
  pose proof (scan_calls int_of_str host keys [] []) as Hcalls.
  destruct (scan int_of_str host keys [] []) as [tr [outputs | e'']];
    simpl in Hscan; [done |].
  injection Hscan as ->. cbn [fst snd].
  split; [| done]. exists pre, key', post, e'. done.
Qed.

(** *** Cycle after cycle *)

(** X17.  The controller converges: once the host object shows, for the
    knobs of a batch, the values that were written, and the directives
    are the same, the next cycle calls nothing. *)
Theorem applied_batch_is_quiet host host' guests hv :
  coercible int_of_str host ->
  (forall name, GetControl host' name = GetControl host name) ->
  (forall key z,
     differs int_of_str host key z ->
     attrs host' !! String.append "ksm_" key = Some (PInt z)) ->
  (forall key,
     key ∈ keys -> (forall z, ~ differs int_of_str host key z) ->
     attrs host' !! String.append "ksm_" key
       = attrs host !! String.append "ksm_" key) ->
  unchanged int_of_str host' /\
  calls (process int_of_str ksmTune host' guests hv).1.2 = [].
Proof.
  intros Hco Hsame Hnew Hold.
  assert (Hco' : coercible int_of_str host').
  { unfold coercible in *. eapply Forall_impl; [exact Hco |].
    intros key Hkey. simpl in *. by rewrite !Hsame. }
  assert (Hun : unchanged int_of_str host').
  { intros key Hkey Hn. rewrite Hsame in Hn |- *.
    unfold coercible in Hco. rewrite Forall_forall in Hco.
    destruct (Hco key Hkey Hn) as [z Hz]. exists z. split; [done |].
    destruct (int_ne z (getattr host (String.append "ksm_" key) PNone))
      eqn:Hne.
    - unfold getattr. rewrite (Hnew key z); [| by repeat split].
      simpl. by rewrite Z.eqb_refl.
    - unfold getattr in *. rewrite Hold; [done | done |].
      intros z' (_ & _ & Hz' & Hne'). rewrite Hz in Hz'.
      injection Hz' as <-. unfold getattr in Hne'. congruence. }
  split; [done |].
  rewrite process_calls by done.
  by apply unchanged_changed in Hun as ->.
Qed.

(** *** What the controller looks at *)

Lemma scan_ext host host' ks outputs tr :
  Forall (fun key =>
            GetControl host (String.append "ksm_" key)
              = GetControl host' (String.append "ksm_" key) /\
            attrs host !! String.append "ksm_" key
              = attrs host' !! String.append "ksm_" key) ks ->
  scan int_of_str host ks outputs tr = scan int_of_str host' ks outputs tr.
Proof.
  revert outputs tr. induction ks as [|key ks IH]; intros outputs tr Hall;
    [done |].
  apply Forall_cons in Hall as [[Hc Ha] Hall]. simpl.
  unfold getattr. rewrite Hc, Ha.
  destruct (is_None _); [by apply IH |].
  destruct (int _ _); [| done].
  destruct (int_ne _ _); by apply IH.
Qed.

(** X18.  A cycle depends on the host only through the four controls and
    the four attributes named [ksm_] plus a key; other controls and
    attributes of the host, and the guests, make no difference. *)
Theorem process_reads_ksm_only host host' guests guests' hv :
  Forall (fun key =>
            GetControl host (String.append "ksm_" key)
              = GetControl host' (String.append "ksm_" key) /\
            attrs host !! String.append "ksm_" key
              = attrs host' !! String.append "ksm_" key) keys ->
  process int_of_str ksmTune host guests hv
    = process int_of_str ksmTune host' guests' hv.
Proof.
  intros Hall. unfold process. by rewrite (scan_ext host host').
Qed.

End more.

Lemma coercible_host1 : coercible Examples.no_text Examples.host1.
Proof.
  unfold coercible, keys.
  repeat (apply List.Forall_cons;
          [intros Hn; first [by vm_compute in Hn | by eexists] |]).
  apply List.Forall_nil.
Defined.

(** One knob of [host1] differs, and the hypervisor interface raises. *)
Lemma process_result_refused :
  coercible Examples.no_text Examples.host1 /\
  process Examples.no_text Examples.refuse Examples.host1 [] 0 =
    (1, [Debug_changed "ksm_pages_to_scan" (PInt 64) 100;
         Info_updating [("pages_to_scan", 100%Z)];
         Call_ksmTune [("pages_to_scan", 100%Z)]],
     Some OtherError) /\
  exists outputs,
    outputs.*1 `sublist_of` keys /\
    (process Examples.no_text Examples.refuse Examples.host1 [] 0).2
      = (Examples.refuse outputs 0).2.
Proof.
  split; [exact coercible_host1 |]. split; [by vm_compute |].
  destruct (process_result Examples.no_text Examples.refuse
              Examples.host1 [] 0 coercible_host1)
    as (outputs & _ & Hsub & Hrun).
  exists outputs. split; [exact Hsub |].
  rewrite Hrun. destruct outputs; [| reflexivity].
  rewrite <- Hrun. by vm_compute.
Defined.

(** [run] is to change and [pages_to_scan] is no number: [process] raises
    what [int("many")] raises and nothing is written. *)
Lemma bad_directive_raises_host_bad :
  let run := process Examples.no_text Examples.accept Examples.host_bad
               [] () in
  differs Examples.no_text Examples.host_bad "run" 1 /\
  int Examples.no_text
      (GetControl Examples.host_bad "ksm_pages_to_scan") = inr ValueError /\
  run.2 = Some ValueError /\ calls run.1.2 = [] /\ run.1.1 = ().
Proof.
  intros run.
  assert (Hin : "pages_to_scan" ∈ keys)
    by (apply list_elem_of_further, list_elem_of_here).
  destruct (bad_directive_raises Examples.no_text Examples.accept
              Examples.host_bad [] () "pages_to_scan" ValueError
              Hin eq_refl eq_refl) as (_ & Hc & Hhv).
  split.
  { split; [apply list_elem_of_here |]. by vm_compute. }
  split; [reflexivity |]. split; [by vm_compute |].
  split; [exact Hc | exact Hhv].
Defined.

(** [host1] after its batch was applied: no further call. *)
Lemma applied_batch_is_quiet_host1 :
  calls (process Examples.no_text Examples.accept Examples.host1 [] ()).1.2
    = [[("pages_to_scan", 100%Z)]] /\
  attrs Examples.host1_applied !! "ksm_pages_to_scan" = Some (PInt 100) /\
  calls (process Examples.no_text Examples.accept
           Examples.host1_applied [] ()).1.2 = [].
Proof.
  split; [by vm_compute |]. split; [by vm_compute |].
  apply (applied_batch_is_quiet Examples.no_text Examples.accept
           Examples.host1 Examples.host1_applied [] () coercible_host1).
  - reflexivity.
  - intros key z (Hkey & Hn & Hz & Hne). unfold keys in Hkey.
    repeat (apply elem_of_cons in Hkey as [-> | Hkey];
            [first [by vm_compute in Hne
                   | vm_compute in Hz; injection Hz as <-; by vm_compute] |]).
    by apply elem_of_nil in Hkey.
  - intros key Hkey Hsame. unfold keys in Hkey.
    repeat (apply elem_of_cons in Hkey as [-> | Hkey];
            [first [by vm_compute
                   | exfalso; apply (Hsame 100%Z);
                     split; [apply list_elem_of_further, list_elem_of_here |];
                     by vm_compute] |]).
    by apply elem_of_nil in Hkey.
Defined.

(** Another control and another attribute on the host change nothing. *)
Lemma process_reads_ksm_only_host1 :
  GetControl Examples.host1_more "balloon_target" = PInt 4096 /\
  GetControl Examples.host1 "balloon_target" = PNone /\
  process Examples.no_text Examples.accept Examples.host1 [] ()
    = process Examples.no_text Examples.accept Examples.host1_more
              [Examples.host0] ().
Proof.
  split; [reflexivity |]. split; [reflexivity |].
  apply (process_reads_ksm_only Examples.no_text Examples.accept).
  unfold keys.
  repeat (apply List.Forall_cons; [split; by vm_compute |]).
  apply List.Forall_nil.
Defined.

End KSMMore.
